(** * Contract analyzer: a shallow embedding of [contract_analyzer.py]

    The analyzer is a rule-based extractor: regular expressions find
    parties, dates and money amounts, keyword lists select sentences, a
    frequency count ranks keywords.  This file embeds the functions of
    [src/contract_analyzer.py] as Rocq functions over Python strings
    (sequences of Unicode code points), together with the part of Python's
    [re] and [str] behaviour they rely on, and proves properties of them.

    What lies outside the repository is a parameter of the development:
    the Unicode character database (non-ASCII code points only), [str.lower],
    NLTK's tokenizers and stop-word list, the iteration order of [set], and
    the file system. *)

From Stdlib Require Import List NArith Bool Arith Lia String Ascii.
From Stdlib Require Import Permutation Sorted.
Import ListNotations.

(* ===================================================================== *)
(** * Python strings *)
(* ===================================================================== *)

(** A Python [str] is a sequence of code points. *)
Definition str := list N.

Definition str_eqb (a b : str) : bool :=
  if list_eq_dec N.eq_dec a b then true else false.

(** Truth value of a string or of a list: it is not empty. *)
Definition nonempty {A} (s : list A) : bool :=
  match s with [] => false | _ :: _ => true end.

(** [len] *)
Abbreviation len := List.length.

(** ** Literals: UTF-8 source text to code points *)

Fixpoint bytes_of (s : string) : list N :=
  match s with
  | EmptyString => []
  | String a t => N_of_ascii a :: bytes_of t
  end.

Fixpoint utf8_decode (need : nat) (acc : N) (l : list N) : str :=
  match l with
  | [] => []
  | b :: t =>
      match need with
      | S n =>
          let acc' := (acc * 64 + b mod 64)%N in
          match n with
          | O => acc' :: utf8_decode 0 0%N t
          | S _ => utf8_decode n acc' t
          end
      | O =>
          if (b <? 128)%N then b :: utf8_decode 0 0%N t
          else if (b <? 224)%N then utf8_decode 1 (b mod 32)%N t
          else if (b <? 240)%N then utf8_decode 2 (b mod 16)%N t
          else utf8_decode 3 (b mod 8)%N t
      end
  end.

(** [u "text"] is the Python string written ["text"]. *)
Definition u (s : string) : str := utf8_decode 0 0%N (bytes_of s).

(** ** Character classes that are fixed lists *)

Definition in_range (a b c : N) : bool := ((a <=? c) && (c <=? b))%N.

(** [str.isspace] for one character, also the [\s] of [re] on [str]
    patterns: CPython's [_PyUnicode_IsWhitespace]. *)
Definition is_space (c : N) : bool :=
  in_range 9 13 c || in_range 28 32 c || (c =? 133)%N || (c =? 160)%N
  || (c =? 5760)%N || in_range 8192 8202 c || (c =? 8232)%N
  || (c =? 8233)%N || (c =? 8239)%N || (c =? 8287)%N || (c =? 12288)%N.

(** Line boundaries of [str.splitlines]: CPython's [_PyUnicode_IsLinebreak]. *)
Definition is_linebreak (c : N) : bool :=
  in_range 10 13 c || in_range 28 30 c || (c =? 133)%N
  || (c =? 8232)%N || (c =? 8233)%N.

Definition ascii_upper (c : N) : bool := in_range 65 90 c.
Definition ascii_lower (c : N) : bool := in_range 97 122 c.
Definition ascii_letter (c : N) : bool := ascii_upper c || ascii_lower c.
Definition ascii_digit (c : N) : bool := in_range 48 57 c.
Definition ascii_tolower (c : N) : N := if ascii_upper c then (c + 32)%N else c.

(** ** The Unicode character database

    Only consulted for code points from 128 on; the ASCII range is
    written out above. *)
Record ucd := {
  u_isalnum : N -> bool;    (* Py_UNICODE_ISALNUM *)
  u_isdecimal : N -> bool;  (* Py_UNICODE_ISDECIMAL *)
  u_isalpha : N -> bool;    (* Py_UNICODE_ISALPHA *)
  u_tolower : N -> N        (* Py_UNICODE_TOLOWER, one code point *)
}.

(** A database in which no code point from 128 on is a letter or a digit. *)
Definition ascii_ucd : ucd :=
  {| u_isalnum := fun _ => false; u_isdecimal := fun _ => false;
     u_isalpha := fun _ => false; u_tolower := fun c => c |}.

Section Chars.
Variable U : ucd.

Definition is_ascii (c : N) : bool := (c <? 128)%N.

(** [\w]: alphanumeric or underscore. *)
Definition is_word (c : N) : bool :=
  if is_ascii c then ascii_letter c || ascii_digit c || (c =? 95)%N
  else u_isalnum U c.

(** [\d]. *)
Definition is_digit (c : N) : bool :=
  if is_ascii c then ascii_digit c else u_isdecimal U c.

Definition is_alpha (c : N) : bool :=
  if is_ascii c then ascii_letter c else u_isalpha U c.

(** [sre_lower_unicode]. *)
Definition to_lower (c : N) : N :=
  if is_ascii c then ascii_tolower c else u_tolower U c.

(** [str.isalpha]: at least one character, all alphabetic. *)
Definition isalpha (s : str) : bool := nonempty s && forallb is_alpha s.
End Chars.

(** ** [str] methods *)

Fixpoint dropwhile (p : N -> bool) (s : str) : str :=
  match s with
  | [] => []
  | c :: t => if p c then dropwhile p t else s
  end.

Definition lstrip (s : str) : str := dropwhile is_space s.
Definition rstrip (s : str) : str := rev (dropwhile is_space (rev s)).
(** [s.strip()] *)
Definition strip (s : str) : str := rstrip (lstrip s).

(** [s.split()]: maximal runs of non-whitespace. *)
Fixpoint split_ws_from (cur : str) (s : str) : list str :=
  match s with
  | [] => if nonempty cur then [rev cur] else []
  | c :: t =>
      if is_space c
      then (if nonempty cur then rev cur :: split_ws_from [] t
            else split_ws_from [] t)
      else split_ws_from (c :: cur) t
  end.
Definition split_ws (s : str) : list str := split_ws_from [] s.

(** [s.split(sep)] for a one-character separator: empty pieces are kept. *)
Fixpoint split_on_from (sep : N) (cur : str) (s : str) : list str :=
  match s with
  | [] => [rev cur]
  | c :: t =>
      if (c =? sep)%N then rev cur :: split_on_from sep [] t
      else split_on_from sep (c :: cur) t
  end.
Definition split_on (sep : N) (s : str) : list str := split_on_from sep [] s.

(** [s.splitlines()]: CR LF is one boundary, no empty last line. *)
Fixpoint splitlines_from (cur : str) (s : str) : list str :=
  match s with
  | [] => if nonempty cur then [rev cur] else []
  | c :: t =>
      if is_linebreak c then
        rev cur ::
        match t with
        | d :: t' =>
            if ((c =? 13) && (d =? 10))%N then splitlines_from [] t'
            else splitlines_from [] t
        | [] => splitlines_from [] t
        end
      else splitlines_from (c :: cur) t
  end.
Definition splitlines (s : str) : list str := splitlines_from [] s.

(** [sep.join(parts)] *)
Fixpoint join (sep : str) (parts : list str) : str :=
  match parts with
  | [] => []
  | [p] => p
  | p :: rest => p ++ sep ++ join sep rest
  end.

Fixpoint is_prefix (p s : str) : bool :=
  match p, s with
  | [], _ => true
  | _ :: _, [] => false
  | a :: p', b :: s' => (a =? b)%N && is_prefix p' s'
  end.

(** [kw in s] *)
Fixpoint contains (kw s : str) : bool :=
  is_prefix kw s ||
  match s with
  | [] => false
  | _ :: t => contains kw t
  end.

(** [x in xs] for a list or a set of strings. *)
Definition str_in (x : str) (xs : list str) : bool := existsb (str_eqb x) xs.

(** [list(dict.fromkeys(xs))]: first occurrences, in order. *)
Fixpoint dict_fromkeys_from (seen : list str) (xs : list str) : list str :=
  match xs with
  | [] => []
  | x :: t =>
      if str_in x seen then dict_fromkeys_from seen t
      else x :: dict_fromkeys_from (x :: seen) t
  end.
Definition dict_fromkeys (xs : list str) : list str := dict_fromkeys_from [] xs.

(* ===================================================================== *)
(** * Regular expressions: the part of [re] the analyzer uses

    A backtracking matcher with the priorities of CPython's [sre]: the
    alternatives of [|] left to right, greedy repeats longest first, lazy
    repeats shortest first, the leftmost start position wins. *)
(* ===================================================================== *)

(** A character of the subject together with what the matcher asks of the
    Unicode database about it. *)
Record uchar := { cp : N; lo : N; wordc : bool; digitc : bool }.

Definition classify (U : ucd) (c : N) : uchar :=
  {| cp := c; lo := to_lower U c; wordc := is_word U c; digitc := is_digit U c |}.

(** Members of a bracket expression. *)
Inductive citem :=
| CLit (c : N)        (* a character *)
| CRange (a b : N)    (* a-b *)
| CDigit              (* \d *)
| CSpace.             (* \s *)

(** What matches one character. *)
Inductive cset :=
| Dot                                  (* . *)
| In_ (neg : bool) (items : list citem). (* [...] and [^...]; a literal
                                            character is a one-element set *)

Inductive regex :=
| Eps
| Atom (a : cset)
| WordB                                 (* \b *)
| Seq (r1 r2 : regex)
| Alt (r1 r2 : regex)
| Group (i : nat) (r : regex)           (* capturing group number i *)
| Opt (r : regex)                       (* (?:r)? *)
| Rep (greedy : bool) (lo : nat) (hi : option nat) (a : cset).
                                        (* a{lo,hi}, a*, a+, a?, a+? *)

Module Re.

Definition range (a b : N) : list N :=
  map N.of_nat (seq (N.to_nat a) (N.to_nat b + 1 - N.to_nat a)).

(** [sre_compile._ignorecase_fixes] at the lower-case ASCII letters:
    dotless i with i, long s with s. *)
Definition fixes (l : N) : list N :=
  if (l =? 105)%N then [305%N] else if (l =? 115)%N then [383%N] else [].

(** Pattern character [p] against the lowered subject character [x]
    under IGNORECASE.  Pattern characters are ASCII, or the uncased
    rupee sign. *)
Definition lit_ci (p x : N) : bool :=
  (x =? ascii_tolower p)%N || existsb (N.eqb x) (fixes (ascii_tolower p)).

Definition item_cased (it : citem) : bool :=
  match it with
  | CLit p => ascii_letter p
  | CRange a b => existsb ascii_letter (range a b)
  | CDigit | CSpace => false
  end.

(** [fold]: the set is compared with the lowered subject character
    (IN_UNI_IGNORE), which [sre] does when IGNORECASE is set and the
    set has a cased member. *)
Definition item_match (fold : bool) (ch : uchar) (it : citem) : bool :=
  match it with
  | CLit p => if fold then lit_ci p (lo ch) else (cp ch =? p)%N
  | CRange a b =>
      if fold then existsb (fun p => lit_ci p (lo ch)) (range a b)
      else in_range a b (cp ch)
  | CDigit => digitc ch
  | CSpace => is_space (cp ch)
  end.

Definition cset_match (ic : bool) (a : cset) (ch : uchar) : bool :=
  match a with
  | Dot => negb (cp ch =? 10)%N
  | In_ neg items =>
      xorb neg (existsb (item_match (ic && existsb item_cased items) ch) items)
  end.

(** Matcher state: the rest of the subject, the character before it,
    its index, and the spans of the groups closed so far. *)
Record mstate := {
  m_rest : list uchar;
  m_prev : option uchar;
  m_pos : nat;
  m_caps : list (nat * (nat * nat))
}.

Definition set_cap (i start : nat) (s : mstate) : mstate :=
  {| m_rest := m_rest s; m_prev := m_prev s; m_pos := m_pos s;
     m_caps := (i, (start, m_pos s)) :: m_caps s |}.

Definition at_boundary (s : mstate) : bool :=
  xorb (match m_prev s with Some c => wordc c | None => false end)
       (match m_rest s with c :: _ => wordc c | [] => false end).

Definition below (hi : option nat) (n : nat) : bool :=
  match hi with None => true | Some h => n <? h end.

Definition accept (lo n : nat) (k : mstate -> option mstate) (s : mstate)
  : option mstate :=
  if lo <=? n then k s else None.

(** Greedy repeat of one-character sets: take as many as allowed, give
    back one at a time. *)
Fixpoint rep_greedy (ic : bool) (a : cset) (lo : nat) (hi : option nat)
    (k : mstate -> option mstate) (n : nat)
    (rest : list uchar) (prev : option uchar) (pos : nat)
    (caps : list (nat * (nat * nat))) : option mstate :=
  match rest with
  | c :: t =>
      if below hi n && cset_match ic a c then
        match rep_greedy ic a lo hi k (S n) t (Some c) (S pos) caps with
        | Some r => Some r
        | None => accept lo n k (Build_mstate rest prev pos caps)
        end
      else accept lo n k (Build_mstate rest prev pos caps)
  | [] => accept lo n k (Build_mstate rest prev pos caps)
  end.

(** Lazy repeat: try the continuation first, take one more on failure. *)
Fixpoint rep_lazy (ic : bool) (a : cset) (lo : nat) (hi : option nat)
    (k : mstate -> option mstate) (n : nat)
    (rest : list uchar) (prev : option uchar) (pos : nat)
    (caps : list (nat * (nat * nat))) : option mstate :=
  match accept lo n k (Build_mstate rest prev pos caps) with
  | Some r => Some r
  | None =>
      match rest with
      | c :: t =>
          if below hi n && cset_match ic a c
          then rep_lazy ic a lo hi k (S n) t (Some c) (S pos) caps
          else None
      | [] => None
      end
  end.

Fixpoint rmatch (ic : bool) (r : regex) (k : mstate -> option mstate)
    (s : mstate) {struct r} : option mstate :=
  match r with
  | Eps => k s
  | Atom a =>
      match m_rest s with
      | c :: t =>
          if cset_match ic a c
          then k (Build_mstate t (Some c) (S (m_pos s)) (m_caps s))
          else None
      | [] => None
      end
  | WordB => if at_boundary s then k s else None
  | Seq r1 r2 => rmatch ic r1 (rmatch ic r2 k) s
  | Alt r1 r2 =>
      match rmatch ic r1 k s with
      | Some x => Some x
      | None => rmatch ic r2 k s
      end
  | Group i r1 => rmatch ic r1 (fun s' => k (set_cap i (m_pos s) s')) s
  | Opt r1 =>
      match rmatch ic r1 k s with
      | Some x => Some x
      | None => k s
      end
  | Rep true lo hi a =>
      rep_greedy ic a lo hi k 0 (m_rest s) (m_prev s) (m_pos s) (m_caps s)
  | Rep false lo hi a =>
      rep_lazy ic a lo hi k 0 (m_rest s) (m_prev s) (m_pos s) (m_caps s)
  end.

(** One attempt at one start position: the end index and the groups. *)
Definition match_at (ic : bool) (r : regex) (rest : list uchar)
    (prev : option uchar) (pos : nat) : option mstate :=
  rmatch ic r Some (Build_mstate rest prev pos []).

Fixpoint ngroups (r : regex) : nat :=
  match r with
  | Eps | Atom _ | WordB | Rep _ _ _ _ => 0
  | Seq r1 r2 | Alt r1 r2 => Nat.max (ngroups r1) (ngroups r2)
  | Group i r1 => Nat.max i (ngroups r1)
  | Opt r1 => ngroups r1
  end.

Fixpoint cap_lookup (i : nat) (caps : list (nat * (nat * nat)))
  : option (nat * nat) :=
  match caps with
  | [] => None
  | (j, sp) :: t => if i =? j then Some sp else cap_lookup i t
  end.

Definition slice (text : str) (a b : nat) : str := firstn (b - a) (skipn a text).

(** A match object: [m.start()], [m.end()], [m.group(0)], [m.groups()]. *)
Record match_obj := {
  mo_start : nat;
  mo_end : nat;
  mo_group0 : str;
  mo_groups : list (option str)
}.

Definition mk_match (r : regex) (text : str) (start : nat) (s : mstate)
  : match_obj :=
  {| mo_start := start; mo_end := m_pos s;
     mo_group0 := slice text start (m_pos s);
     mo_groups :=
       map (fun i => option_map (fun sp => slice text (fst sp) (snd sp))
                                (cap_lookup i (m_caps s)))
           (seq 1 (ngroups r)) |}.

(** The scan of [re.search]: leftmost start position that matches. *)
Fixpoint search_from (ic : bool) (r : regex) (rest : list uchar)
    (prev : option uchar) (pos : nat) : option (nat * mstate) :=
  match match_at ic r rest prev pos with
  | Some s => Some (pos, s)
  | None =>
      match rest with
      | [] => None
      | c :: t => search_from ic r t (Some c) (S pos)
      end
  end.

(** The scan of [re.findall] and [re.sub]: non-overlapping matches left
    to right.  [skip] counts the characters of the last match still to
    be passed.  (No pattern of this program matches the empty string;
    after an empty match the scan moves on by one character.) *)
Fixpoint scan (ic : bool) (r : regex) (skip : nat) (rest : list uchar)
    (prev : option uchar) (pos : nat) : list (nat * mstate) :=
  match skip with
  | S sk =>
      match rest with
      | [] => []
      | c :: t => scan ic r sk t (Some c) (S pos)
      end
  | O =>
      match match_at ic r rest prev pos with
      | Some s =>
          (pos, s) ::
          match rest with
          | [] => []
          | c :: t => scan ic r (m_pos s - pos - 1) t (Some c) (S pos)
          end
      | None =>
          match rest with
          | [] => []
          | c :: t => scan ic r 0 t (Some c) (S pos)
          end
      end
  end.

Section WithUcd.
Variable U : ucd.

(** [re.search(r, text)], with [flags=re.IGNORECASE] when [ic]. *)
Definition search (ic : bool) (r : regex) (text : str) : option match_obj :=
  option_map (fun ps => mk_match r text (fst ps) (snd ps))
             (search_from ic r (map (classify U) text) None 0).

Definition finditer (ic : bool) (r : regex) (text : str) : list match_obj :=
  map (fun ps => mk_match r text (fst ps) (snd ps))
      (scan ic r 0 (map (classify U) text) None 0).

(** [re.findall(r, text)] for a pattern with no group (the matches) or
    with one group (what the group captured, [''] when it did not
    take part). *)
Definition findall (ic : bool) (r : regex) (text : str) : list str :=
  map (fun m =>
         match mo_groups m with
         | [] => mo_group0 m
         | g :: _ => match g with Some x => x | None => [] end
         end)
      (finditer ic r text).

(** [re.sub(r, repl, text)] for a replacement without group
    references. *)
Fixpoint sub_pieces (repl : str) (text : str) (from : nat)
    (ms : list match_obj) : str :=
  match ms with
  | [] => skipn from text
  | m :: rest =>
      slice text from (mo_start m) ++ repl
      ++ sub_pieces repl text (mo_end m) rest
  end.

Definition sub (r : regex) (repl : str) (text : str) : str :=
  sub_pieces repl text 0 (finditer false r text).
End WithUcd.

(** ** Writing patterns *)

Definition chr (c : N) : regex := Atom (In_ false [CLit c]).

(** A literal run of characters. *)
Fixpoint lit_of (l : str) : regex :=
  match l with
  | [] => Eps
  | [c] => chr c
  | c :: t => Seq (chr c) (lit_of t)
  end.
Definition lit (s : string) : regex := lit_of (u s).

Fixpoint seqs (rs : list regex) : regex :=
  match rs with
  | [] => Eps
  | [r] => r
  | r :: t => Seq r (seqs t)
  end.

Fixpoint alts (rs : list regex) : regex :=
  match rs with
  | [] => Eps
  | [r] => r
  | r :: t => Alt r (alts t)
  end.

Definition space : cset := In_ false [CSpace].
Definition digit : cset := In_ false [CDigit].
Definition plus (a : cset) : regex := Rep true 1 None a.
Definition star (a : cset) : regex := Rep true 0 None a.
Definition quest (a : cset) : regex := Rep true 0 (Some 1) a.
Definition lazy_plus (a : cset) : regex := Rep false 1 None a.
Definition between (lo hi : nat) (a : cset) : regex := Rep true lo (Some hi) a.
Definition at_least (lo : nat) (a : cset) : regex := Rep true lo None a.

End Re.

(* ===================================================================== *)
(** * The pattern library of [contract_analyzer.py] *)
(* ===================================================================== *)

Module Patterns.
Import Re.

(** [c "x"] is the code point of the character [x]. *)
Definition c (s : string) : N := hd 0%N (u s).

(** [[A-Za-z0-9 ,]] *)
Definition alnum_sp_comma : cset :=
  In_ false [CRange (c "A") (c "Z"); CRange (c "a") (c "z");
             CRange (c "0") (c "9"); CLit (c " "); CLit (c ",")].

(** [[-/]] *)
Definition dash_slash : cset := In_ false [CLit (c "-"); CLit (c "/")].

Definition month_names : list string :=
  ["Jan"; "Feb"; "March"; "Mar"; "Apr"; "May"; "Jun"; "Jul"; "Aug"; "Sep";
   "Sept"; "Oct"; "Nov"; "Dec"; "January"; "February"; "March"; "April";
   "May"; "June"; "July"; "August"; "September"; "October"; "November";
   "December"]%string.

(** DATE_PAT, lines 29-33: one capturing group around five alternatives. *)
Definition DATE_PAT : regex :=
  Group 1 (alts [
    (* \b(?:\d{1,2}(?:st|nd|rd|th)?\s+(?:Jan|...|December)\b\s+\d{2,4}) *)
    seqs [WordB; between 1 2 digit;
          Opt (alts [lit "st"; lit "nd"; lit "rd"; lit "th"]);
          plus space; alts (map lit month_names); WordB; plus space;
          between 2 4 digit];
    (* \b(?:\d{1,2}[-/]\d{1,2}[-/]\d{2,4})\b *)
    seqs [WordB; between 1 2 digit; Atom dash_slash; between 1 2 digit;
          Atom dash_slash; between 2 4 digit; WordB];
    (* \b(?:\d{4}[-/]\d{1,2}[-/]\d{1,2})\b *)
    seqs [WordB; between 4 4 digit; Atom dash_slash; between 1 2 digit;
          Atom dash_slash; between 1 2 digit; WordB];
    (* \b(?:effective\s+as\s+of\s+[A-Za-z0-9 ,]+)\b *)
    seqs [WordB; lit "effective"; plus space; lit "as"; plus space;
          lit "of"; plus space; plus alnum_sp_comma; WordB];
    (* \b(?:effective\s+date\s*[:\-]?\s*[A-Za-z0-9 ,]+)\b *)
    seqs [WordB; lit "effective"; plus space; lit "date"; star space;
          quest (In_ false [CLit (c ":"); CLit (c "-")]); star space;
          plus alnum_sp_comma; WordB]]).

(** The fallback of [extract_dates], line 77:
    \bon\s+[A-Za-z0-9 ,]+\s+\d{4}\b *)
Definition DATE_FALLBACK : regex :=
  seqs [WordB; lit "on"; plus space; plus alnum_sp_comma; plus space;
        between 4 4 digit; WordB].

(** \d[\d,]*(?:\.\d+)? *)
Definition amount : regex :=
  seqs [Atom digit; star (In_ false [CDigit; CLit (c ",")]);
        Opt (Seq (chr (c ".")) (plus digit))].

(** MONEY_PAT, line 35. *)
Definition MONEY_PAT : regex :=
  Group 1 (alts [
    (* \b₹\s?\d[\d,]*(?:\.\d+)?\b *)
    seqs [WordB; lit "₹"; quest space; amount; WordB];
    (* \bRs\.?\s?\d[\d,]*(?:\.\d+)?\b *)
    seqs [WordB; lit "Rs"; quest (In_ false [CLit (c ".")]); quest space;
          amount; WordB];
    (* \bUSD\s?\d[\d,]*(?:\.\d+)?\b *)
    seqs [WordB; lit "USD"; quest space; amount; WordB];
    (* \bEUR\s?\d[\d,]*(?:\.\d+)?\b *)
    seqs [WordB; lit "EUR"; quest space; amount; WordB];
    (* \b\d[\d,]*(?:\.\d+)?\s?(?:dollars|rupees|INR|USD|EUR)\b *)
    seqs [WordB; amount; quest space;
          alts [lit "dollars"; lit "rupees"; lit "INR"; lit "USD"; lit "EUR"];
          WordB]]).

Definition OBL_KEYWORDS : list str :=
  map u ["shall"; "must"; "agree"; "agrees"; "obligat"; "responsib";
         "undertake"; "require"; "warrant"; "covenant"; "will"]%string.

Definition TERMINATION_KEYWORDS : list str :=
  map u ["terminate"; "termination"; "expire"; "expiry"; "notice period";
         "notice"; "breach"; "cancel"; "cancelled"]%string.

(** \s+(.+?)\s+and\s+(.+?)\b with groups numbered [i] and [i+1]. *)
Definition a_and_b (i : nat) : regex :=
  seqs [plus space; Group i (lazy_plus Dot); plus space; lit "and";
        plus space; Group (S i) (lazy_plus Dot); WordB].

(** PARTY_PATTERNS, lines 42-49. *)
Definition PARTY_PATTERNS : list regex := [
  (* \bthis\s+agreement\s+(?:is\s+)?(?:made|entered\s+into)\s+
     (?:on\s+[A-Za-z0-9 ,]+)?\s*(?:between|by and between)
     \s+(.+?)\s+and\s+(.+?)\b *)
  seqs [WordB; lit "this"; plus space; lit "agreement"; plus space;
        Opt (Seq (lit "is") (plus space));
        Alt (lit "made") (seqs [lit "entered"; plus space; lit "into"]);
        plus space;
        Opt (seqs [lit "on"; plus space; plus alnum_sp_comma]);
        star space;
        Alt (lit "between") (lit "by and between");
        a_and_b 1];
  (* \bbetween\s+(.+?)\s+\(|between\s+(.+?)\s+and\s+(.+?)\b *)
  Alt (seqs [WordB; lit "between"; plus space; Group 1 (lazy_plus Dot);
             plus space; chr (c "(")])
      (seqs [lit "between"; a_and_b 2]);
  (* \bby\s+and\s+between\s+(.+?)\s+and\s+(.+?)\b *)
  seqs [WordB; lit "by"; plus space; lit "and"; plus space; lit "between";
        a_and_b 1]].

(** \s{2,}, line 96 *)
Definition SPACES2 : regex := at_least 2 space.

(** \([^)]+\), line 98 *)
Definition PARENTHETICAL : regex :=
  seqs [chr (c "("); plus (In_ true [CLit (c ")")]); chr (c ")")].

(** \b([A-Z][A-Z0-9 &(),\.-]{3,})\b, line 107 *)
Definition CAPS_PAT : regex :=
  seqs [WordB;
        Group 1 (Seq (Atom (In_ false [CRange (c "A") (c "Z")]))
                     (at_least 3
                        (In_ false [CRange (c "A") (c "Z");
                                    CRange (c "0") (c "9"); CLit (c " ");
                                    CLit (c "&"); CLit (c "(");
                                    CLit (c ")"); CLit (c ",");
                                    CLit (c "."); CLit (c "-")])));
        WordB].
End Patterns.

(* ===================================================================== *)
(** * The analyzer *)
(* ===================================================================== *)

(** [collections.Counter]: keys in the order of their first occurrence. *)
Fixpoint counter_add (w : str) (cnt : list (str * nat)) : list (str * nat) :=
  match cnt with
  | [] => [(w, 1)]
  | (k, n) :: t =>
      if str_eqb k w then (k, S n) :: t else (k, n) :: counter_add w t
  end.

Definition Counter (ws : list str) : list (str * nat) :=
  fold_left (fun cnt w => counter_add w cnt) ws [].

(** [sorted(items, key=itemgetter(1), reverse=True)]: a stable sort, so
    items with equal counts keep the order they had. *)
Fixpoint insert_desc (x : str * nat) (l : list (str * nat)) : list (str * nat) :=
  match l with
  | [] => [x]
  | y :: t => if snd y <=? snd x then x :: l else y :: insert_desc x t
  end.

Fixpoint sorted_desc (l : list (str * nat)) : list (str * nat) :=
  match l with
  | [] => []
  | x :: t => insert_desc x (sorted_desc t)
  end.

(** [Counter.most_common(n)]: [heapq.nlargest(n, items, key=count)], which
    is the first [n] of the stable descending sort. *)
Definition most_common (n : nat) (cnt : list (str * nat)) : list (str * nat) :=
  firstn n (sorted_desc cnt).

(** Exceptions that [load_file] raises itself or passes on. *)
Inductive exn :=
| FileNotFoundError (msg : str)
| RuntimeError (msg : str)
| OSError (errno : nat) (strerror : str)
| OtherError (msg : str).

(** [pathlib] and [docx] as the analyzer sees them. *)
Record filesystem := {
  fs_exists : str -> exn + bool;            (* Path(p).exists(): True or False,
                                               or the OSError of [stat] that
                                               [exists] does not swallow (name
                                               too long, permission denied) *)
  fs_suffix : str -> str;                   (* Path(p).suffix *)
  fs_read_text : str -> exn + str;          (* p.read_text(encoding='utf-8', errors='ignore') *)
  fs_docx : option (str -> exn + list str)  (* Document, None when python-docx
                                               is missing; the paragraph texts *)
}.

(** The dictionary [analyze_contract] returns. *)
Record analysis := {
  parties : list str;
  dates_found : list str;
  money_values : list str;
  obligation_sentences : list str;
  termination_sentences : list str;
  top_keywords : list str;
  short_summary : str
}.

Section Analyzer.
Import Patterns.

Variable U : ucd.
(** [str.lower] *)
Variable str_lower : str -> str.
(** [nltk.tokenize.sent_tokenize], [word_tokenize] *)
Variable sent_tokenize : str -> list str.
Variable word_tokenize : str -> list str.
(** [set(stopwords.words("english"))] *)
Variable STOPWORDS : list str.
(** [list(set(xs))]: the distinct members of [xs] in the order in which
    the set yields them, which depends on the hashes of the strings. *)
Variable set_iter : list str -> list str.
Variable fs : filesystem.

Definition read_docx (path : str) : exn + str :=
  match fs_docx fs with
  | None =>
      inl (RuntimeError
             (u "python-docx not installed. Install via pip install python-docx"))
  | Some document =>
      match document path with
      | inl e => inl e
      | inr paragraphs => inr (join [10%N] paragraphs)
      end
  end.

Definition read_text (path : str) : exn + str := fs_read_text fs path.

(** Lines 63-70; an exception of [p.exists()] is not caught. *)
Definition load_file (path_str : str) : exn + str :=
  match fs_exists fs path_str with
  | inl e => inl e
  | inr found =>
      if negb found
      then inl (FileNotFoundError (path_str ++ u " not found"))
      else if str_in (str_lower (fs_suffix fs path_str)) [u ".docx"]
           then read_docx path_str
           else read_text path_str
  end.

(** Lines 73-78 up to the set: the trimmed pieces of [flat + fallback],
    in the order in which the two scans find them. *)
Definition date_candidates (text : str) : list str :=
  let matches := Re.findall U true DATE_PAT text in
  let flat :=
    match matches with
    | [] => []
    | _ :: _ =>
        flat_map (fun grp => filter nonempty (split_on 10%N grp)) matches
    end in
  let fallback := Re.findall U true DATE_FALLBACK text in
  map strip (flat ++ fallback).

Definition extract_dates (text : str) : list str :=
  let dates := set_iter (date_candidates text) in
  firstn 10 dates.

Definition extract_money (text : str) : list str :=
  let matches := Re.findall U true MONEY_PAT text in
  let cleaned := map strip matches in
  firstn 10 (dict_fromkeys cleaned).

(** Lines 95-100: the groups of one match, cleaned, appended to [found]. *)
Fixpoint append_groups (groups : list str) (found : list str) : list str :=
  match groups with
  | [] => found
  | g :: rest =>
      let g_clean := strip (Re.sub U SPACES2 (u " ") g) in
      let g_clean := strip (Re.sub U PARENTHETICAL [] g_clean) in
      if nonempty g_clean && (2 <? len g_clean)
      then append_groups rest (found ++ [g_clean])
      else append_groups rest found
  end.

(** [m.groups()] without the groups that are None or empty. *)
Definition truthy_groups (m : Re.match_obj) : list str :=
  flat_map (fun g => match g with
                     | Some x => if nonempty x then [x] else []
                     | None => []
                     end)
           (Re.mo_groups m).

(** Lines 90-102: the loop over PARTY_PATTERNS, left at the first pattern
    after which [found] is not empty. *)
Fixpoint party_loop (pats : list regex) (text_clean : str)
    (found : list str) : list str :=
  match pats with
  | [] => found
  | pat :: rest =>
      match Re.search U true pat text_clean with
      | Some m =>
          let found := append_groups (truthy_groups m) found in
          if nonempty found then found
          else party_loop rest text_clean found
      | None => party_loop rest text_clean found
      end
  end.

(** Lines 110-115: the first two distinct capitalised phrases. *)
Fixpoint uniq_loop (caps : list str) (uniq : list str) : list str :=
  match caps with
  | [] => uniq
  | cap :: rest =>
      let c_s := strip cap in
      let uniq :=
        if negb (str_in (str_lower c_s) STOPWORDS)
           && (3 <? len c_s) && negb (str_in c_s uniq)
        then uniq ++ [c_s] else uniq in
      if 2 <=? len uniq then uniq else uniq_loop rest uniq
  end.

Definition extract_parties (text : str) : list str :=
  let text_clean := join (u " ") (split_ws text) in
  let found := party_loop PARTY_PATTERNS text_clean [] in
  let found :=
    match found with
    | [] =>
        let head := firstn 40 (splitlines text) in
        let caps := Re.findall U false CAPS_PAT (join [10%N] head) in
        uniq_loop caps []
    | _ :: _ => found
    end in
  firstn 2 found.

Definition find_sentences_by_keywords (text : str) (keywords : list str)
  : list str :=
  let sents := sent_tokenize text in
  flat_map (fun s =>
              let low := str_lower s in
              if existsb (fun kw => contains kw low) keywords
              then [strip s] else [])
           sents.

(** The list comprehension of line 131. *)
Definition content_words (text : str) : list str :=
  map str_lower
    (filter (fun w => isalpha U w && negb (str_in (str_lower w) STOPWORDS))
            (word_tokenize text)).

(** [top_n = None]: the caller passed no [top_n]. *)
Definition keyword_summary (text : str) (top_n : option nat) : list str :=
  let top_n := match top_n with Some n => n | None => 10 end in
  let words := content_words text in
  let freqs := Counter words in
  map fst (most_common top_n freqs).

(** Lines 138-158 of [analyze_contract]: everything after [load_file]. *)
Definition analyze_text (text : str) : analysis :=
  let parties := extract_parties text in
  let dates := extract_dates text in
  let money := extract_money text in
  let obligations := find_sentences_by_keywords text OBL_KEYWORDS in
  let termination := find_sentences_by_keywords text TERMINATION_KEYWORDS in
  let keywords := keyword_summary text (Some 12) in
  let sents := sent_tokenize text in
  let short_summary :=
    match sents with
    | [] => []
    | _ :: _ => join (u " ") (firstn 4 sents)
    end in
  {| parties := parties;
     dates_found := dates;
     money_values := money;
     obligation_sentences := firstn 10 obligations;
     termination_sentences := firstn 8 termination;
     top_keywords := keywords;
     short_summary := short_summary |}.

Definition analyze_contract (path : str) : exn + analysis :=
  match load_file path with
  | inl e => inl e
  | inr text => inr (analyze_text text)
  end.

End Analyzer.

(* ===================================================================== *)
(** * Vocabulary of the properties *)
(* ===================================================================== *)

(** ** The order of a [set]

    What Python promises of [list(set(xs))]: the distinct members of [xs],
    each once, in some order. *)
Definition set_order_ok (set_iter : list str -> list str) : Prop :=
  forall xs, NoDup (set_iter xs) /\ (forall x, In x (set_iter xs) <-> In x xs).

(** The pieces that [extract_dates] trims and puts into its set: the
    non-empty pieces between newlines of a match of DATE_PAT (line 75
    splits every match at the newlines), and the matches of the fallback
    rule, whole. *)
Definition date_piece (U : ucd) (text : str) (y : str) : Prop :=
  (exists grp, In grp (Re.findall U true Patterns.DATE_PAT text)
               /\ In y (split_on 10%N grp) /\ y <> [])
  \/ In y (Re.findall U true Patterns.DATE_FALLBACK text).

(** A date that is wrapped over two lines. *)
Definition wrapped_date_text : str :=
  [68; 117; 101; 32; 49; 32; 74; 97; 110; 117; 97; 114; 121; 10;
   50; 48; 50; 52]%N.

(** Two orders a set may have: first occurrences first, and the reverse. *)
Definition set_rev (xs : list str) : list str := rev (dict_fromkeys xs).

(** ** The keyword ranking *)

(** How often [w] occurs in [ws]. *)
Definition count (w : str) (ws : list str) : nat :=
  count_occ (list_eq_dec N.eq_dec) ws w.

(** The index of the first occurrence of [w] in [ws]. *)
Fixpoint index_of (w : str) (ws : list str) : nat :=
  match ws with
  | [] => 0
  | x :: t => if str_eqb x w then 0 else S (index_of w t)
  end.

(** [a] ranks before [b] among the words [ws]: it is more frequent, or as
    frequent and first seen earlier. *)
Definition ranks_before (ws : list str) (a b : str) : Prop :=
  count b ws < count a ws
  \/ (count a ws = count b ws /\ index_of a ws < index_of b ws).

(** The same on counter items, with any order [P] on the keys. *)
Definition item_before (P : str -> str -> Prop) (x y : str * nat) : Prop :=
  snd y < snd x \/ (snd x = snd y /\ P (fst x) (fst y)).

(** The counter of [ws], written out: the distinct words in the order of
    their first occurrence, each with its number of occurrences. *)
Definition counter_of (ws : list str) : list (str * nat) :=
  map (fun k => (k, count k ws)) (dict_fromkeys ws).

(** ** Sentences by keyword *)

(** [s] is a sentence that [find_sentences_by_keywords] keeps. *)
Definition has_keyword (str_lower : str -> str) (keywords : list str)
    (s : str) : bool :=
  existsb (fun kw => contains kw (str_lower s)) keywords.

(** Lower-casing and trimming commute, as they do for [str.lower] and
    [str.strip]: white space has no case, and no lower-case form starts or
    ends with white space. *)
Definition lower_commutes_with_strip (str_lower : str -> str) : Prop :=
  forall s, str_lower (strip s) = strip (str_lower s).

(** A keyword that neither starts nor ends with white space. *)
Definition keyword_ok (kw : str) : bool :=
  match kw with [] => false | c :: _ => negb (is_space c) end
  && match rev kw with [] => false | c :: _ => negb (is_space c) end.

(* ===================================================================== *)
(** * The scenario of the specification and other inputs *)
(* ===================================================================== *)

Definition scenario : str :=
  u "This Agreement is made between Acme Corp and Beta LLC on 1 January 2024. Acme shall pay Beta ₹50,000 within 30 days. This Agreement may be terminated with 30 days notice.".

(** The rupee sign, U+20B9. *)
Definition rupee : N := 8377%N.

(** What Unicode says of the rupee sign: a currency symbol, so neither
    alphanumeric nor a digit, and without case. *)
Definition rupee_is_symbol (U : ucd) : Prop :=
  u_isalnum U rupee = false /\ u_isdecimal U rupee = false
  /\ u_tolower U rupee = rupee.

(** Two parties with the same first word. *)
Definition same_name_text : str :=
  u "This Agreement is made between Acme and Acme Corp".

Definition two_dates_text : str :=
  u "Signed 1 January 2024, renewed 2 February 2025.".

(** The caps of the analysis record. *)
Definition within_caps (r : analysis) : Prop :=
  len (parties r) <= 2 /\ len (dates_found r) <= 10
  /\ len (money_values r) <= 10 /\ len (obligation_sentences r) <= 10
  /\ len (termination_sentences r) <= 8 /\ len (top_keywords r) <= 12.

(** The record with nothing in it. *)
Definition empty_analysis : analysis :=
  {| parties := []; dates_found := []; money_values := [];
     obligation_sentences := []; termination_sentences := [];
     top_keywords := []; short_summary := [] |}.

(** ** Stand-ins for the collaborators, for running examples

    Lower-casing of ASCII letters only, words split at whitespace,
    sentences split after each full stop, a file system without files. *)
Definition ascii_str_lower (s : str) : str := map ascii_tolower s.

Definition simple_words (s : str) : list str := split_ws s.

Fixpoint simple_sentences_from (cur : str) (s : str) : list str :=
  match s with
  | [] => if nonempty (strip (rev cur)) then [strip (rev cur)] else []
  | c :: t =>
      if (c =? 46)%N
      then strip (rev (c :: cur)) :: simple_sentences_from [] t
      else simple_sentences_from (c :: cur) t
  end.
Definition simple_sentences (s : str) : list str := simple_sentences_from [] s.

Definition no_files : filesystem :=
  {| fs_exists := fun _ => inr false; fs_suffix := fun _ => [];
     fs_read_text := fun p => inl (OtherError p); fs_docx := None |}.

(** A file system without files in which a name of more than 255
    characters makes [stat], and so [exists], fail with ENAMETOOLONG. *)
Definition long_name_fs : filesystem :=
  {| fs_exists := fun p => if 255 <? len p
                           then inl (OSError 36 (u "File name too long"))
                           else inr false;
     fs_suffix := fun _ => [];
     fs_read_text := fun p => inl (OtherError p); fs_docx := None |}.

(** ['a' * 300] *)
Definition long_name : str := repeat 97%N 300.

Definition twelve_words_text : str :=
  u "alpha beta gamma delta epsilon zeta eta theta iota kappa lambda mu".

Definition tie_text : str := u "beta alpha beta gamma alpha".

(* ===================================================================== *)
(** * [app.py] and the script part of [contract_analyzer.py] *)
(* ===================================================================== *)

(** ** [pathlib] on a POSIX system (CPython 3.11)

    The components of a path: the pieces between slashes, without the
    empty ones and without ["."]. *)
Definition path_parts (p : str) : list str :=
  filter (fun x => nonempty x && negb (str_eqb x [46%N])) (split_on 47%N p).

Definition is_slash (c : N) : bool := (c =? 47)%N.

(** The root: ["/"], or ["//"] for exactly two leading slashes, or none. *)
Definition path_root (p : str) : str :=
  let slashes := len p - len (dropwhile is_slash p) in
  if slashes =? 0 then [] else if slashes =? 2 then [47; 47]%N else [47%N].

(** [Path(p).name] *)
Definition path_name (p : str) : str := last (path_parts p) [].

(** [s.rfind(c)] for one character; [None] is Python's -1. *)
Fixpoint rfind (c : N) (s : str) : option nat :=
  match s with
  | [] => None
  | x :: t =>
      match rfind c t with
      | Some i => Some (S i)
      | None => if (x =? c)%N then Some 0 else None
      end
  end.

(** [Path(p).suffix]: from the last dot of the name on, when that dot is
    neither the first nor the last character of the name. *)
Definition path_suffix (p : str) : str :=
  let name := path_name p in
  match rfind 46%N name with
  | Some i => if (0 <? i) && (i <? len name - 1) then skipn i name else []
  | None => []
  end.

(** [str] of a path with the given root and components. *)
Definition path_str (root : str) (parts : list str) : str :=
  match root, parts with
  | [], [] => [46%N]
  | _, _ => root ++ join [47%N] parts
  end.

(** [str(Path(a) / b)]: an absolute [b] replaces [a]. *)
Definition path_join (a b : str) : str :=
  if nonempty (path_root b) then path_str (path_root b) (path_parts b)
  else path_str (path_root a) (path_parts a ++ path_parts b).

(** ** [app.py] *)

Definition UPLOAD_FOLDER : str := u "uploads".

Definition ALLOWED : list str := [u ".txt"; u ".docx"].

(** [allowed_file], lines 14-15 of [app.py]. *)
Definition allowed_file (str_lower : str -> str) (filename : str) : bool :=
  contains [46%N] filename && str_in (str_lower (path_suffix filename)) ALLOWED.

(** [save_path] of line 25, as the string given to [analyze_contract]. *)
Definition save_path (filename : str) : str := path_join UPLOAD_FOLDER filename.

(** ** The report *)

(** [print(a, b, ...)]: the arguments separated by a space, then a newline. *)
Definition print (args : list str) : str := join [32%N] args ++ [10%N].

(** The [for] loops that print or write one [" - item"] line for each item. *)
Definition item_lines (items : list str) : str :=
  flat_map (fun x => u " - " ++ x ++ [10%N]) items.

(** What [pretty_print] writes to standard output, lines 160-179. *)
Definition pretty_print (result : analysis) : str :=
  print [[10%N] ++ u "--- Contract Analysis ---" ++ [10%N]]
  ++ print [u "Parties (guessed):"]
  ++ item_lines (parties result)
  ++ print [[10%N] ++ u "Important Dates (guessed):"]
  ++ item_lines (dates_found result)
  ++ print [[10%N] ++ u "Money / Amounts:"]
  ++ item_lines (money_values result)
  ++ print [[10%N] ++ u "Obligation sentences (contain shall/must/agree/...):"]
  ++ item_lines (obligation_sentences result)
  ++ print [[10%N] ++ u "Termination / Notice sentences:"]
  ++ item_lines (termination_sentences result)
  ++ print [[10%N] ++ u "Top keywords (quick):";
            join (u ", ") (top_keywords result)]
  ++ print [[10%N] ++ u "Short extractive summary (first sentences):" ++ [10%N];
            short_summary result]
  ++ print [[10%N] ++ u "-------------------------" ++ [10%N]].

(** What lines 191-212 write to [report_output.txt]. *)
Definition report_text (res : analysis) : str :=
  u "--- Contract Analysis ---" ++ [10; 10]%N
  ++ u "Parties (guessed):" ++ [10%N]
  ++ item_lines (parties res)
  ++ [10%N] ++ u "Important Dates (guessed):" ++ [10%N]
  ++ item_lines (dates_found res)
  ++ [10%N] ++ u "Money / Amounts:" ++ [10%N]
  ++ item_lines (money_values res)
  ++ [10%N] ++ u "Obligation sentences:" ++ [10%N]
  ++ item_lines (obligation_sentences res)
  ++ [10%N] ++ u "Termination / Notice sentences:" ++ [10%N]
  ++ item_lines (termination_sentences res)
  ++ [10%N] ++ u "Top keywords:" ++ [10%N]
  ++ join (u ", ") (top_keywords res)
  ++ [10; 10]%N ++ u "Short extractive summary:" ++ [10%N]
  ++ short_summary res
  ++ [10; 10]%N ++ u "-------------------------" ++ [10%N].

(** How a run of the script ends: [sys.exit] with a status, an exception
    that nothing catches, or the end of the script with the report file
    written.  Each carries what was printed to standard output. *)
Inductive outcome :=
| Exit (status : nat) (stdout : str)
| Uncaught (e : exn) (stdout : str)
| Done (stdout : str) (report : str).

Section Script.
Variable U : ucd.
Variable str_lower : str -> str.
Variable sent_tokenize : str -> list str.
Variable word_tokenize : str -> list str.
Variable STOPWORDS : list str.
Variable set_iter : list str -> list str.
Variable fs : filesystem.

(** The script, lines 181-214, run with [sys.argv = argv], for the runs
    in which the tokenizers return and printing and writing the report
    succeed: the exceptions of these are not among the outcomes. *)
Definition main (argv : list str) : outcome :=
  if len argv <? 2
  then Exit 1 (print [u "Usage: python contract_analyzer.py path/to/contract.txt"])
  else
    let path := nth 1 argv [] in
    match analyze_contract U str_lower sent_tokenize word_tokenize STOPWORDS
            set_iter fs path with
    | inl e => Uncaught e []
    | inr res =>
        Done (pretty_print res
              ++ print [[10%N] ++ u "Analysis saved to report_output.txt"])
             (report_text res)
    end.

End Script.

(** ** More vocabulary *)

(** No two neighbours in [s] are both white space. *)
Fixpoint single_spaced (s : str) : Prop :=
  match s with
  | [] => True
  | c :: t =>
      match t with
      | [] => True
      | d :: _ => (is_space c = true -> is_space d = false) /\ single_spaced t
      end
  end.

(** The trimmed matches of MONEY_PAT, in the order of the text: the list
    [cleaned] of [extract_money]. *)
Definition money_candidates (U : ucd) (text : str) : list str :=
  map strip (Re.findall U true Patterns.MONEY_PAT text).

(** What one party pattern yields on the one-line text: the cleaned groups
    of its first match that are long enough, nothing without a match. *)
Definition pattern_yield (U : ucd) (pat : regex) (text_clean : str) : list str :=
  match Re.search U true pat text_clean with
  | Some m => append_groups U (truthy_groups m) []
  | None => []
  end.

(** The heading fallback of [extract_parties], lines 106-116. *)
Definition heading_fallback (U : ucd) (str_lower : str -> str)
    (STOPWORDS : list str) (text : str) : list str :=
  uniq_loop str_lower STOPWORDS
    (Re.findall U false Patterns.CAPS_PAT (join [10%N] (firstn 40 (splitlines text))))
    [].

(** The first list that is not empty. *)
Fixpoint first_nonempty (ls : list (list str)) : list str :=
  match ls with
  | [] => []
  | l :: rest => if nonempty l then l else first_nonempty rest
  end.

(** No word boundary inside [g]: neighbours are both word characters or
    both not, so [g] is one word or one run of other characters. *)
Fixpoint no_boundary_inside (U : ucd) (g : str) : Prop :=
  match g with
  | [] => True
  | c :: t =>
      match t with
      | [] => True
      | d :: _ => is_word U c = is_word U d /\ no_boundary_inside U t
      end
  end.

(** The same on classified characters. *)
Fixpoint one_run (l : list uchar) : Prop :=
  match l with
  | [] => True
  | c :: t =>
      match t with
      | [] => True
      | d :: _ => wordc c = wordc d /\ one_run t
      end
  end.

(** The numbers of the groups of a pattern. *)
Fixpoint group_ids (r : regex) : list nat :=
  match r with
  | Eps | Atom _ | WordB | Rep _ _ _ _ => []
  | Seq r1 r2 | Alt r1 r2 => group_ids r1 ++ group_ids r2
  | Group i r1 => i :: group_ids r1
  | Opt r1 => group_ids r1
  end.

(** The matcher state is at index [m_pos] of the classified text. *)
Definition in_text (ctext : list uchar) (s : Re.mstate) : Prop :=
  Re.m_rest s = skipn (Re.m_pos s) ctext.

(** [str(Path(p))] *)
Definition path_norm (p : str) : str := path_str (path_root p) (path_parts p).

(** A file system with one text file, and one with one document of two
    paragraphs and [python-docx] installed. *)
Definition one_file_fs : filesystem :=
  {| fs_exists := fun p => inr (str_eqb p (u "uploads/contract.txt"));
     fs_suffix := path_suffix;
     fs_read_text := fun _ => inr (u "Acme shall pay Beta. Beta may terminate.");
     fs_docx := None |}.

Definition one_docx_fs : filesystem :=
  {| fs_exists := fun p => inr (str_eqb p (u "uploads/contract.docx"));
     fs_suffix := path_suffix;
     fs_read_text := fun p => inl (OtherError p);
     fs_docx := Some (fun _ => inr [u "SERVICE AGREEMENT"; u "Acme shall pay Beta."]) |}.

(** The same document where [python-docx] is not installed. *)
Definition no_docx_lib_fs : filesystem :=
  {| fs_exists := fun p => inr (str_eqb p (u "uploads/contract.docx"));
     fs_suffix := path_suffix;
     fs_read_text := fun p => inl (OtherError p);
     fs_docx := None |}.

Definition heading_text : str :=
  [77; 65; 83; 84; 69; 82; 32; 65; 71; 82; 69; 69; 77; 69; 78; 84; 10;
   65; 67; 77; 69; 32; 67; 79; 82; 80; 46; 10]%N.

(** The keyword lists without the keywords that contain another keyword
    of the same list. *)
Definition OBL_CORE : list str :=
  map u ["shall"; "must"; "agree"; "obligat"; "responsib"; "undertake";
         "require"; "warrant"; "covenant"; "will"]%string.

Definition TERMINATION_CORE : list str :=
  map u ["terminate"; "termination"; "expire"; "expiry"; "notice"; "breach";
         "cancel"]%string.

(* ===================================================================== *)
(** * Facts about lists and strings *)
(* ===================================================================== *)

Example u_rupee : u "₹5" = [8377%N; 53%N].
Proof. reflexivity. Qed.
Example split_ws_ex : split_ws (u "  a  bc ") = [u "a"; u "bc"].
Proof. reflexivity. Qed.
Example splitlines_ex :
  splitlines [97; 13; 10; 10; 98; 10]%N = [[97]; []; [98]]%N.
Proof. reflexivity. Qed.
Example strip_ex : strip (u "  a b  ") = u "a b".
Proof. reflexivity. Qed.

Lemma str_eqb_eq (a b : str) : str_eqb a b = true <-> a = b.
Proof.
  unfold str_eqb. destruct (list_eq_dec N.eq_dec a b); split; congruence.
Qed.

Lemma str_eqb_refl (a : str) : str_eqb a a = true.
Proof. now apply str_eqb_eq. Qed.

Lemma str_eqb_neq (a b : str) : str_eqb a b = false <-> a <> b.
Proof.
  unfold str_eqb. destruct (list_eq_dec N.eq_dec a b); split;
    congruence.
Qed.

Lemma str_in_In (x : str) (xs : list str) : str_in x xs = true <-> In x xs.
Proof.
  unfold str_in. rewrite existsb_exists. split.
  - intros [y [Hy He]]. apply str_eqb_eq in He. now subst.
  - intros H. exists x. split; [assumption | apply str_eqb_refl].
Qed.

Lemma str_in_not_In (x : str) (xs : list str) :
  str_in x xs = false <-> ~ In x xs.
Proof.
  rewrite <- str_in_In. destruct (str_in x xs); split; congruence.
Qed.

Lemma firstn_In {A} (n : nat) (l : list A) (x : A) :
  In x (firstn n l) -> In x l.
Proof.
  revert l. induction n as [|n IH]; intros [|y l]; simpl; try tauto.
  intros [H | H]; [now left | right; now apply IH].
Qed.

Lemma firstn_NoDup {A} (n : nat) (l : list A) : NoDup l -> NoDup (firstn n l).
Proof.
  revert l. induction n as [|n IH]; intros [|x l] H; simpl; try constructor.
  - inversion H; subst. intros Hin. apply firstn_In in Hin. contradiction.
  - inversion H; subst. now apply IH.
Qed.

(** ** [strip] *)

Lemma dropwhile_suffix (p : N -> bool) (s : str) :
  exists pre, s = pre ++ dropwhile p s /\ forallb p pre = true.
Proof.
  induction s as [|c t [pre [E F]]]; simpl.
  - now exists [].
  - destruct (p c) eqn:Hc.
    + exists (c :: pre). simpl. rewrite Hc, F. split; [now f_equal | reflexivity].
    + now exists [].
Qed.

Lemma dropwhile_fix (p : N -> bool) (s : str) :
  match s with [] => True | c :: _ => p c = false end -> dropwhile p s = s.
Proof. destruct s as [|c t]; simpl; [reflexivity | now intros ->]. Qed.

Lemma dropwhile_head (p : N -> bool) (s : str) :
  match dropwhile p s with [] => True | c :: _ => p c = false end.
Proof.
  induction s as [|c t IH]; simpl; [exact I|].
  destruct (p c) eqn:Hc; [exact IH | exact Hc].
Qed.

Lemma dropwhile_idem (p : N -> bool) (s : str) :
  dropwhile p (dropwhile p s) = dropwhile p s.
Proof. apply dropwhile_fix, dropwhile_head. Qed.

Lemma rstrip_head (s : str) :
  match s with [] => True | c :: _ => is_space c = false end ->
  match rstrip s with [] => True | c :: _ => is_space c = false end.
Proof.
  unfold rstrip. intros H.
  destruct (dropwhile_suffix is_space (rev s)) as [pre [E F]].
  destruct (dropwhile is_space (rev s)) as [|d r] eqn:D; simpl; [exact I|].
  assert (Es : s = rev r ++ d :: rev pre).
  { rewrite <- (rev_involutive s), E, rev_app_distr. simpl.
    now rewrite <- app_assoc. }
  assert (Hd : is_space d = false).
  { pose proof (dropwhile_head is_space (rev s)) as Hh. now rewrite D in Hh. }
  destruct (rev r) as [|e r'] eqn:R; simpl.
  - exact Hd.
  - rewrite Es in H. exact H.
Qed.

Lemma lstrip_rstrip_fix (s : str) :
  match s with [] => True | c :: _ => is_space c = false end ->
  lstrip (rstrip s) = rstrip s.
Proof. intros H. apply dropwhile_fix, rstrip_head, H. Qed.

Lemma rstrip_idem (s : str) : rstrip (rstrip s) = rstrip s.
Proof.
  unfold rstrip. rewrite rev_involutive. now rewrite dropwhile_idem.
Qed.

(** Trimming a trimmed string changes nothing. *)
Lemma strip_idempotent (s : str) : strip (strip s) = strip s.
Proof.
  unfold strip at 1.
  assert (H : lstrip (strip s) = strip s).
  { unfold strip. apply lstrip_rstrip_fix. apply (dropwhile_head is_space s). }
  rewrite H. unfold strip. apply rstrip_idem.
Qed.

Lemma map_strip_fixed (l : list str) :
  Forall (fun x => strip x = x) l -> map strip l = l.
Proof.
  induction 1 as [|x l Hx _ IH]; simpl; [reflexivity | now rewrite Hx, IH].
Qed.

(** ** [dict.fromkeys] *)

Lemma dict_fromkeys_from_In (seen xs : list str) (x : str) :
  In x (dict_fromkeys_from seen xs) <-> In x xs /\ ~ In x seen.
Proof.
  revert seen. induction xs as [|y t IH]; intros seen; simpl.
  - tauto.
  - destruct (str_in y seen) eqn:Hy.
    + apply str_in_In in Hy. rewrite IH. split.
      * tauto.
      * intros [[-> | H] Hn]; [contradiction | tauto].
    + apply str_in_not_In in Hy. simpl. rewrite IH. simpl. split.
      * intros [-> | [H Hn]]; [tauto | tauto].
      * intros [[-> | H] Hn]; [now left|].
        destruct (list_eq_dec N.eq_dec y x) as [-> | Hne]; [now left|].
        right. split; [assumption | intros [E | E]; contradiction].
Qed.

Lemma dict_fromkeys_from_NoDup (seen xs : list str) :
  NoDup (dict_fromkeys_from seen xs).
Proof.
  revert seen. induction xs as [|y t IH]; intros seen; simpl.
  - constructor.
  - destruct (str_in y seen); [apply IH|].
    constructor; [|apply IH].
    rewrite dict_fromkeys_from_In. simpl. tauto.
Qed.

Lemma dict_fromkeys_In (xs : list str) (x : str) :
  In x (dict_fromkeys xs) <-> In x xs.
Proof. unfold dict_fromkeys. rewrite dict_fromkeys_from_In. simpl. tauto. Qed.

Lemma dict_fromkeys_NoDup (xs : list str) : NoDup (dict_fromkeys xs).
Proof. apply dict_fromkeys_from_NoDup. Qed.

Lemma set_order_perm (set_iter : list str -> list str) (xs : list str) :
  set_order_ok set_iter -> Permutation (set_iter xs) (dict_fromkeys xs).
Proof.
  intros H. destruct (H xs) as [Hnd Hin].
  apply NoDup_Permutation; [assumption | apply dict_fromkeys_NoDup |].
  intros x. now rewrite Hin, dict_fromkeys_In.
Qed.

Lemma set_order_nil (set_iter : list str -> list str) :
  set_order_ok set_iter -> set_iter [] = [].
Proof.
  intros H. destruct (H []) as [_ Hin].
  destruct (set_iter []) as [|x l]; [reflexivity|].
  exfalso. apply (Hin x). now left.
Qed.

Lemma dict_fromkeys_order_ok : set_order_ok dict_fromkeys.
Proof.
  intros xs. split; [apply dict_fromkeys_NoDup | intros x; apply dict_fromkeys_In].
Qed.

Lemma set_rev_order_ok : set_order_ok set_rev.
Proof.
  intros xs. unfold set_rev. split.
  - apply NoDup_rev, dict_fromkeys_NoDup.
  - intros x. now rewrite <- in_rev, dict_fromkeys_In.
Qed.

(** ** The matcher sees the Unicode database only through [classify] *)

Lemma classify_ascii (U V : ucd) (c : N) :
  (c < 128)%N -> classify U c = classify V c.
Proof.
  intros H. apply N.ltb_lt in H.
  unfold classify, to_lower, is_word, is_digit, is_ascii. now rewrite H.
Qed.

Lemma findall_ext (U V : ucd) (ic : bool) (r : regex) (text : str) :
  (forall c, In c text -> classify U c = classify V c) ->
  Re.findall U ic r text = Re.findall V ic r text.
Proof.
  intros H. unfold Re.findall, Re.finditer.
  now rewrite (map_ext_in _ _ _ H).
Qed.

(* ===================================================================== *)
(** * Properties of the extractors *)
(* ===================================================================== *)

Section Properties.
Import Patterns.

Variable U : ucd.
Variable str_lower : str -> str.
Variable sent_tokenize : str -> list str.
Variable word_tokenize : str -> list str.
Variable STOPWORDS : list str.
Variable set_iter : list str -> list str.
Variable fs : filesystem.

(** C1.  On the scenario text the party extractor returns "Acme Corp" and
    then "Beta": the lazy second group of the first party pattern ends at
    the first word boundary, so "Beta LLC" is cut to its first word. *)
Theorem extract_parties_scenario :
  extract_parties U str_lower STOPWORDS scenario = [u "Acme Corp"; u "Beta"].
Proof. vm_compute. reflexivity. Qed.

Lemma classify_scenario :
  rupee_is_symbol U ->
  forall c, In c scenario -> classify U c = classify ascii_ucd c.
Proof.
  intros (Ha & Hd & Hl) c Hc.
  assert (Hcases : (c < 128)%N \/ c = rupee).
  { assert (F : forallb (fun c => (c <? 128)%N || (c =? rupee)%N) scenario = true)
      by (vm_compute; reflexivity).
    rewrite forallb_forall in F. specialize (F c Hc).
    apply orb_true_iff in F. destruct F as [F | F].
    - left. now apply N.ltb_lt.
    - right. now apply N.eqb_eq. }
  destruct Hcases as [Hlt | ->].
  - now apply classify_ascii.
  - unfold classify, to_lower, is_word, is_digit, is_ascii. simpl.
    now rewrite Ha, Hd, Hl.
Qed.

(** C2.  On the scenario text the money extractor returns nothing: the
    first alternative of MONEY_PAT asks for a word boundary before the
    rupee sign, and between a space and a currency symbol there is none. *)
Theorem extract_money_scenario :
  rupee_is_symbol U -> extract_money U scenario = [].
Proof.
  intros H. unfold extract_money.
  rewrite (findall_ext U ascii_ucd true MONEY_PAT scenario (classify_scenario H)).
  vm_compute. reflexivity.
Qed.

(** The same rule does find the amount when a word character stands
    directly before the rupee sign. *)
Lemma extract_money_glued :
  extract_money ascii_ucd (u "Acme shall pay₹50,000 within 30 days.")
  = [u "₹50,000"].
Proof. vm_compute. reflexivity. Qed.

(** C4.  The pattern path of the party extractor appends both captured
    groups without comparing them: the same name comes back twice. *)
Theorem extract_parties_same_name :
  extract_parties U str_lower STOPWORDS same_name_text = [u "Acme"; u "Acme"].
Proof. vm_compute. reflexivity. Qed.

(** Every date candidate is already trimmed. *)
Lemma date_candidates_trimmed (text : str) :
  Forall (fun x => strip x = x) (date_candidates U text).
Proof.
  unfold date_candidates. apply Forall_forall. intros x Hx.
  apply in_map_iff in Hx. destruct Hx as [y [<- _]]. apply strip_idempotent.
Qed.

(** The dates are pairwise different, also after trimming. *)
Lemma extract_dates_NoDup (text : str) :
  set_order_ok set_iter -> NoDup (map strip (extract_dates U set_iter text)).
Proof.
  intros Hset. unfold extract_dates.
  destruct (Hset (date_candidates U text)) as [Hnd Hin].
  rewrite map_strip_fixed.
  - now apply firstn_NoDup.
  - apply Forall_forall. intros x Hx. apply firstn_In in Hx.
    rewrite Hin in Hx. pose proof (date_candidates_trimmed text) as F.
    rewrite Forall_forall in F. now apply F.
Qed.

(** The money values are pairwise different, also after trimming. *)
Lemma extract_money_NoDup (text : str) :
  NoDup (map strip (extract_money U text)).
Proof.
  unfold extract_money. rewrite map_strip_fixed.
  - apply firstn_NoDup, dict_fromkeys_NoDup.
  - apply Forall_forall. intros x Hx. apply firstn_In in Hx.
    rewrite dict_fromkeys_In in Hx. apply in_map_iff in Hx. destruct Hx as [y [<- _]]. apply strip_idempotent.
Qed.

(** The heading fallback of the party extractor does compare: what it
    collects is duplicate-free. *)
Lemma uniq_loop_NoDup (caps uniq : list str) :
  NoDup uniq -> NoDup (uniq_loop str_lower STOPWORDS caps uniq).
Proof.
  revert uniq. induction caps as [|cap rest IH]; intros uniq Hnd.
  - assumption.
  - cbn [uniq_loop].
    match goal with
    | |- context [if ?c then uniq ++ [?x] else uniq] =>
        remember (if c then uniq ++ [x] else uniq) as uniq' eqn:Eu
    end.
    assert (Hnd' : NoDup uniq').
    { subst uniq'. destruct (str_in (strip cap) uniq) eqn:Hin.
      - simpl. rewrite andb_false_r. assumption.
      - apply str_in_not_In in Hin.
        destruct (negb _ && _); simpl; [|assumption].
        apply NoDup_rev in Hnd. rewrite <- (rev_involutive (uniq ++ _)).
        apply NoDup_rev. rewrite rev_app_distr. simpl.
        constructor; [now rewrite <- in_rev | assumption]. }
    destruct (2 <=? len uniq'); [assumption | now apply IH].
Qed.

(** The date candidates are the trimmed pieces. *)
Lemma date_candidates_pieces (text d : str) :
  In d (date_candidates U text)
  <-> exists y, date_piece U text y /\ d = strip y.
Proof.
  unfold date_candidates, date_piece. rewrite in_map_iff. split.
  - intros [y [<- Hy]]. exists y. split; [|reflexivity].
    apply in_app_or in Hy. destruct Hy as [Hy | Hy]; [left | now right].
    destruct (Re.findall U true DATE_PAT text) as [|g0 gs] eqn:E;
      [contradiction|].
    apply in_flat_map in Hy. destruct Hy as [grp [Hg Hy]].
    apply filter_In in Hy. destruct Hy as [Hy Hne].
    exists grp. repeat split; [assumption | assumption |].
    intros ->. discriminate.
  - intros [y [[[grp [Hg [Hy Hne]]] | Hy] ->]]; exists y;
      (split; [reflexivity|]); apply in_or_app; [left | now right].
    destruct (Re.findall U true DATE_PAT text) as [|g0 gs] eqn:E;
      [contradiction|].
    apply in_flat_map. exists grp. split; [assumption|].
    apply filter_In. split; [assumption|]. now destruct y.
Qed.

(** C3, as the code has it.  The date extractor returns the first ten
    members of a set of trimmed pieces: the pieces are the non-empty
    pieces between newlines of the matches of the primary rule and the
    matches of the fallback rule.  The result is pairwise different, every
    entry is such a trimmed piece, and the entries come in the order in
    which the set yields them, which is some arrangement of the distinct
    trimmed pieces and need not be the order of discovery.  With at most
    ten distinct trimmed pieces every one of them is returned. *)
Theorem extract_dates_set_order (text : str) :
  set_order_ok set_iter ->
  let ds := extract_dates U set_iter text in
  let found := dict_fromkeys (date_candidates U text) in
  NoDup ds /\ len ds <= 10
  /\ (forall d, In d ds -> In d (date_candidates U text))
  /\ (exists order, Permutation order found /\ ds = firstn 10 order)
  /\ (len found <= 10 -> Permutation ds found)
  /\ (forall d, In d ds -> exists y, date_piece U text y /\ d = strip y)
  /\ (len found <= 10 ->
      forall y, date_piece U text y -> In (strip y) ds).
Proof.
  intros Hset ds found. subst ds found. unfold extract_dates.
  destruct (Hset (date_candidates U text)) as [Hnd Hin].
  pose proof (set_order_perm set_iter (date_candidates U text) Hset) as Hp.
  repeat split.
  - now apply firstn_NoDup.
  - apply firstn_le_length.
  - intros d Hd. now apply Hin, firstn_In with (n := 10).
  - exists (set_iter (date_candidates U text)). split; [assumption | reflexivity].
  - intros Hlen. rewrite firstn_all2; [assumption|].
    now rewrite (Permutation_length Hp).
  - intros d Hd. apply date_candidates_pieces.
    now apply Hin, firstn_In with (n := 10).
  - intros Hlen y Hy. rewrite firstn_all2
      by now rewrite (Permutation_length Hp).
    apply Hin, date_candidates_pieces. now exists y.
Qed.

(** A date wrapped over two lines comes back in two pieces, neither of
    them a match of a date rule. *)
Example extract_dates_wrapped :
  Re.findall ascii_ucd true DATE_PAT wrapped_date_text
  = [[49; 32; 74; 97; 110; 117; 97; 114; 121; 10; 50; 48; 50; 52]%N]
  /\ extract_dates ascii_ucd dict_fromkeys wrapped_date_text
     = [u "1 January"; u "2024"].
Proof. vm_compute. split; reflexivity. Qed.

(** C6.  Every analysis record is within the caps. *)
Theorem analyze_text_within_caps (text : str) :
  within_caps
    (analyze_text U str_lower sent_tokenize word_tokenize STOPWORDS set_iter text).
Proof.
  unfold within_caps, analyze_text.
  cbn [parties dates_found money_values obligation_sentences
       termination_sentences top_keywords].
  repeat split.
  - unfold extract_parties. apply firstn_le_length.
  - unfold extract_dates. apply firstn_le_length.
  - unfold extract_money. apply firstn_le_length.
  - apply firstn_le_length.
  - apply firstn_le_length.
  - unfold keyword_summary, most_common. rewrite length_map.
    apply firstn_le_length.
Qed.

(** Whatever [analyze_contract] returns for a path is within the caps. *)
Lemma analyze_contract_within_caps (path : str) :
  match analyze_contract U str_lower sent_tokenize word_tokenize STOPWORDS
          set_iter fs path with
  | inr r => within_caps r
  | inl _ => True
  end.
Proof.
  unfold analyze_contract. destruct (load_file str_lower fs path) as [e | text];
    [exact I|].
  unfold within_caps, analyze_text.
  cbn [parties dates_found money_values obligation_sentences
       termination_sentences top_keywords].
  unfold extract_parties, extract_dates, extract_money, keyword_summary,
    most_common.
  rewrite length_map. repeat split; apply firstn_le_length.
Qed.

(** When no party pattern yields a name, the parties come from the heading
    fallback and are pairwise different. *)
Lemma extract_parties_fallback_NoDup (text : str) :
  party_loop U PARTY_PATTERNS (join (u " ") (split_ws text)) [] = [] ->
  NoDup (extract_parties U str_lower STOPWORDS text).
Proof.
  intros H. unfold extract_parties. rewrite H.
  apply firstn_NoDup, uniq_loop_NoDup. constructor.
Qed.

Lemma extract_parties_nil : extract_parties U str_lower STOPWORDS [] = [].
Proof. vm_compute. reflexivity. Qed.

Lemma date_candidates_nil : date_candidates U [] = [].
Proof. vm_compute. reflexivity. Qed.

Lemma extract_money_nil : extract_money U [] = [].
Proof. vm_compute. reflexivity. Qed.

(** C7.  The analysis of the empty text is the empty record, given that
    the tokenizers find no sentence and no word in the empty text. *)
Theorem analyze_empty_text :
  sent_tokenize [] = [] -> word_tokenize [] = [] -> set_order_ok set_iter ->
  analyze_text U str_lower sent_tokenize word_tokenize STOPWORDS set_iter []
  = empty_analysis.
Proof.
  intros Hs Hw Hset. unfold analyze_text, empty_analysis.
  rewrite extract_parties_nil, extract_money_nil.
  unfold extract_dates. rewrite date_candidates_nil, (set_order_nil set_iter Hset).
  unfold find_sentences_by_keywords, keyword_summary, content_words.
  rewrite Hs, Hw. reflexivity.
Qed.

(** The same for a file whose text is empty. *)
Lemma analyze_contract_empty_file (path : str) :
  sent_tokenize [] = [] -> word_tokenize [] = [] -> set_order_ok set_iter ->
  load_file str_lower fs path = inr [] ->
  analyze_contract U str_lower sent_tokenize word_tokenize STOPWORDS set_iter
    fs path
  = inr empty_analysis.
Proof.
  intros Hs Hw Hset Hl. unfold analyze_contract. rewrite Hl.
  f_equal. unfold analyze_text, empty_analysis.
  rewrite extract_parties_nil, extract_money_nil.
  unfold extract_dates. rewrite date_candidates_nil, (set_order_nil set_iter Hset).
  unfold find_sentences_by_keywords, keyword_summary, content_words.
  rewrite Hs, Hw. reflexivity.
Qed.

(** C10, as the code has it.  [analyze_contract] takes a path.  For a
    path that names no existing file no record is produced: [load_file]
    fails before anything is extracted, with FileNotFoundError when
    [Path(path).exists()] returns False, and with the exception of
    [exists()] itself when that call raises. *)
Theorem analyze_contract_missing_file (path : str) :
  fs_exists fs path <> inr true ->
  exists e,
    load_file str_lower fs path = inl e
    /\ analyze_contract U str_lower sent_tokenize word_tokenize STOPWORDS
         set_iter fs path
       = inl e
    /\ (fs_exists fs path = inr false ->
        e = FileNotFoundError (path ++ u " not found"))
    /\ (forall e', fs_exists fs path = inl e' -> e = e').
Proof.
  intros H. unfold analyze_contract, load_file.
  destruct (fs_exists fs path) as [e0 | [|]].
  - exists e0. repeat split; [discriminate | congruence].
  - congruence.
  - exists (FileNotFoundError (path ++ u " not found")).
    repeat split; discriminate.
Qed.

End Properties.

(** C3, the claim as stated fails.  A set may yield the two dates of
    [two_dates_text] in the reverse of the order of discovery, and two
    admissible set orders give two different results for one text. *)
Lemma extract_dates_not_discovery_order :
  set_order_ok set_rev /\ set_order_ok dict_fromkeys
  /\ date_candidates ascii_ucd two_dates_text
     = [u "1 January 2024"; u "2 February 2025"]
  /\ extract_dates ascii_ucd set_rev two_dates_text
     = [u "2 February 2025"; u "1 January 2024"]
  /\ extract_dates ascii_ucd set_rev two_dates_text
     <> firstn 10 (dict_fromkeys (date_candidates ascii_ucd two_dates_text))
  /\ extract_dates ascii_ucd set_rev two_dates_text
     <> extract_dates ascii_ucd dict_fromkeys two_dates_text.
Proof.
  split; [apply set_rev_order_ok|]. split; [apply dict_fromkeys_order_ok|].
  split; [vm_compute; reflexivity|]. split; [vm_compute; reflexivity|].
  split; vm_compute; discriminate.
Qed.

Lemma extract_money_scenario_witness :
  rupee_is_symbol ascii_ucd /\ extract_money ascii_ucd scenario = [].
Proof.
  assert (H : rupee_is_symbol ascii_ucd) by (repeat split).
  split; [exact H | exact (extract_money_scenario ascii_ucd H)].
Defined.

Lemma extract_dates_set_order_witness :
  set_order_ok set_rev
  /\ Permutation (extract_dates ascii_ucd set_rev two_dates_text)
       (dict_fromkeys (date_candidates ascii_ucd two_dates_text)).
Proof.
  split; [apply set_rev_order_ok|].
  pose proof (extract_dates_set_order ascii_ucd set_rev two_dates_text
                set_rev_order_ok) as H.
  cbv zeta in H. destruct H as (_ & _ & _ & _ & H & _).
  apply H. vm_compute. lia.
Defined.

Lemma analyze_empty_text_witness :
  analyze_text ascii_ucd ascii_str_lower simple_sentences simple_words []
    dict_fromkeys []
  = empty_analysis.
Proof.
  apply analyze_empty_text;
    [reflexivity | reflexivity | apply dict_fromkeys_order_ok].
Defined.

Lemma analyze_contract_missing_file_witness :
  analyze_contract ascii_ucd ascii_str_lower simple_sentences simple_words []
    dict_fromkeys no_files (u "contract.txt")
  = inl (FileNotFoundError (u "contract.txt not found")).
Proof.
  destruct (analyze_contract_missing_file ascii_ucd ascii_str_lower
              simple_sentences simple_words [] dict_fromkeys no_files
              (u "contract.txt"))
    as [e [_ [Ha [Hf _]]]].
  - discriminate.
  - rewrite Ha, (Hf eq_refl). reflexivity.
Defined.

(** C10, the claim as stated fails.  A name of 300 characters names no
    existing file, and [analyze_contract] raises the OSError of
    [Path.exists], not FileNotFoundError. *)
Lemma analyze_contract_long_name :
  fs_exists long_name_fs long_name <> inr true
  /\ analyze_contract ascii_ucd ascii_str_lower simple_sentences simple_words []
       dict_fromkeys long_name_fs long_name
     = inl (OSError 36 (u "File name too long"))
  /\ analyze_contract ascii_ucd ascii_str_lower simple_sentences simple_words []
       dict_fromkeys long_name_fs long_name
     <> inl (FileNotFoundError (long_name ++ u " not found")).
Proof.
  split; [vm_compute; discriminate|].
  split; [vm_compute; reflexivity | vm_compute; discriminate].
Qed.

(* ===================================================================== *)
(** * The keyword ranking *)
(* ===================================================================== *)

Lemma count_app (w : str) (a b : list str) :
  count w (a ++ b) = count w a + count w b.
Proof. unfold count. apply count_occ_app. Qed.

Lemma count_single (w k : str) :
  count k [w] = if str_eqb k w then 1 else 0.
Proof.
  unfold count. simpl. destruct (list_eq_dec N.eq_dec w k) as [-> | Hne].
  - now rewrite str_eqb_refl.
  - destruct (str_eqb k w) eqn:E; [|reflexivity].
    apply str_eqb_eq in E. congruence.
Qed.

Lemma count_zero (w : str) (ws : list str) : ~ In w ws -> count w ws = 0.
Proof. unfold count. now apply count_occ_not_In. Qed.

Lemma dict_fromkeys_from_snoc (seen p : list str) (w : str) :
  dict_fromkeys_from seen (p ++ [w])
  = dict_fromkeys_from seen p
    ++ (if str_in w seen || str_in w p then [] else [w]).
Proof.
  revert seen. induction p as [|x t IH]; intros seen; simpl.
  - rewrite orb_false_r. now destruct (str_in w seen).
  - destruct (str_in x seen) eqn:Hx.
    + rewrite IH. f_equal.
      destruct (str_eqb w x) eqn:E; simpl; [|reflexivity].
      apply str_eqb_eq in E. subst. now rewrite Hx.
    + simpl. rewrite IH. do 2 f_equal. simpl.
      destruct (str_eqb w x), (str_in w seen), (str_in w t); reflexivity.
Qed.

Lemma dict_fromkeys_snoc (p : list str) (w : str) :
  dict_fromkeys (p ++ [w])
  = dict_fromkeys p ++ (if str_in w p then [] else [w]).
Proof. unfold dict_fromkeys. now rewrite dict_fromkeys_from_snoc. Qed.

(** Adding a word to a counter whose keys are distinct. *)
Lemma counter_add_map (w : str) (cnt : str -> nat) (ks : list str) :
  NoDup ks ->
  counter_add w (map (fun k => (k, cnt k)) ks)
  = map (fun k => (k, if str_eqb k w then S (cnt k) else cnt k)) ks
    ++ (if str_in w ks then [] else [(w, 1)]).
Proof.
  induction 1 as [|k ks Hk Hnd IH]; simpl; [reflexivity|].
  destruct (str_eqb k w) eqn:E.
  - apply str_eqb_eq in E. subst k.
    rewrite (proj2 (str_eqb_eq w w) eq_refl). simpl.
    rewrite app_nil_r. f_equal.
    apply map_ext_in. intros a Ha.
    destruct (str_eqb a w) eqn:Ea; [|reflexivity].
    apply str_eqb_eq in Ea. subst. contradiction.
  - rewrite IH. simpl.
    assert (Ew : str_eqb w k = false).
    { apply str_eqb_neq. apply str_eqb_neq in E. congruence. }
    now rewrite Ew.
Qed.

Lemma counter_of_snoc (p : list str) (w : str) :
  counter_add w (counter_of p) = counter_of (p ++ [w]).
Proof.
  unfold counter_of. rewrite counter_add_map by apply dict_fromkeys_NoDup.
  rewrite dict_fromkeys_snoc, map_app. f_equal.
  - apply map_ext. intros k. rewrite count_app, count_single.
    destruct (str_eqb k w); [now rewrite Nat.add_1_r | now rewrite Nat.add_0_r].
  - assert (Hiff : str_in w (dict_fromkeys p) = str_in w p).
    { destruct (str_in w p) eqn:E.
      - apply str_in_In. apply dict_fromkeys_In. now apply str_in_In.
      - apply str_in_not_In. rewrite dict_fromkeys_In. now apply str_in_not_In. }
    rewrite Hiff. destruct (str_in w p) eqn:E; simpl; [reflexivity|].
    rewrite count_app, count_single, str_eqb_refl.
    apply str_in_not_In in E. now rewrite (count_zero _ _ E).
Qed.

Lemma Counter_from (p ws : list str) :
  fold_left (fun cnt w => counter_add w cnt) ws (counter_of p)
  = counter_of (p ++ ws).
Proof.
  revert p. induction ws as [|w t IH]; intros p; simpl.
  - now rewrite app_nil_r.
  - rewrite counter_of_snoc, IH. now rewrite <- app_assoc.
Qed.

(** The counter built word by word is the counter written out. *)
Lemma Counter_spec (ws : list str) : Counter ws = counter_of ws.
Proof. unfold Counter. apply (Counter_from [] ws). Qed.

(** ** First occurrences come in the order of their indices *)

Lemma StronglySorted_weaken {A} (R R' : A -> A -> Prop) (l : list A) :
  (forall a b, In a l -> In b l -> R a b -> R' a b) ->
  StronglySorted R l -> StronglySorted R' l.
Proof.
  intros Himp H. induction H as [|a l Hs IH Hf]; constructor.
  - apply IH. intros x y Hx Hy. apply Himp; now right.
  - rewrite Forall_forall in *. intros y Hy.
    apply Himp; [now left | now right | now apply Hf].
Qed.

Lemma StronglySorted_map {A B} (f : A -> B) (R : B -> B -> Prop) (l : list A) :
  StronglySorted (fun a b => R (f a) (f b)) l -> StronglySorted R (map f l).
Proof.
  induction 1 as [|a l Hs IH Hf]; simpl; constructor; [assumption|].
  rewrite Forall_forall in *. intros y Hy.
  apply in_map_iff in Hy. destruct Hy as [x [<- Hx]]. now apply Hf.
Qed.

Lemma StronglySorted_firstn {A} (R : A -> A -> Prop) (n : nat) (l : list A) :
  StronglySorted R l -> StronglySorted R (firstn n l).
Proof.
  intros H. revert n. induction H as [|a l Hs IH Hf]; intros [|n]; simpl;
    try constructor.
  - apply IH.
  - rewrite Forall_forall in *. intros y Hy. apply Hf.
    now apply firstn_In with (n := n).
Qed.

Lemma dict_fromkeys_from_sorted (seen ws : list str) :
  StronglySorted (fun a b => index_of a ws < index_of b ws)
    (dict_fromkeys_from seen ws).
Proof.
  revert seen. induction ws as [|x t IH]; intros seen; simpl.
  - constructor.
  - destruct (str_in x seen) eqn:Hx.
    + apply str_in_In in Hx.
      apply StronglySorted_weaken with (2 := IH seen).
      intros a b Ha Hb Hlt.
      apply dict_fromkeys_from_In in Ha, Hb.
      destruct (str_eqb x a) eqn:Ea;
        [apply str_eqb_eq in Ea; subst; tauto|].
      destruct (str_eqb x b) eqn:Eb;
        [apply str_eqb_eq in Eb; subst; tauto|].
      lia.
    + constructor.
      * apply StronglySorted_weaken with (2 := IH (x :: seen)).
        intros a b Ha Hb Hlt.
        apply dict_fromkeys_from_In in Ha, Hb. simpl in Ha, Hb.
        destruct (str_eqb x a) eqn:Ea;
          [apply str_eqb_eq in Ea; subst; tauto|].
        destruct (str_eqb x b) eqn:Eb;
          [apply str_eqb_eq in Eb; subst; tauto|].
        lia.
      * apply Forall_forall. intros b Hb.
        apply dict_fromkeys_from_In in Hb. simpl in Hb.
        rewrite str_eqb_refl.
        destruct (str_eqb x b) eqn:Eb;
          [apply str_eqb_eq in Eb; subst; tauto | lia].
Qed.

(** ** The descending sort is stable *)

Lemma insert_desc_In (x z : str * nat) (l : list (str * nat)) :
  In z (insert_desc x l) <-> z = x \/ In z l.
Proof.
  induction l as [|y t IH]; simpl.
  - intuition congruence.
  - destruct (snd y <=? snd x); simpl; [intuition congruence|].
    rewrite IH. intuition congruence.
Qed.

Lemma sorted_desc_In (z : str * nat) (l : list (str * nat)) :
  In z (sorted_desc l) <-> In z l.
Proof.
  induction l as [|x t IH]; simpl; [tauto|].
  rewrite insert_desc_In, IH. intuition congruence.
Qed.

Lemma insert_desc_length (x : str * nat) (l : list (str * nat)) :
  len (insert_desc x l) = S (len l).
Proof.
  induction l as [|y t IH]; simpl; [reflexivity|].
  destruct (snd y <=? snd x); simpl; [reflexivity | now rewrite IH].
Qed.

Lemma sorted_desc_length (l : list (str * nat)) : len (sorted_desc l) = len l.
Proof.
  induction l as [|x t IH]; simpl; [reflexivity|].
  now rewrite insert_desc_length, IH.
Qed.

(** Inserting an item that came before all items of a sorted list. *)
Lemma insert_desc_sorted (P : str -> str -> Prop) (x : str * nat)
    (l : list (str * nat)) :
  StronglySorted (item_before P) l ->
  Forall (fun y => P (fst x) (fst y)) l ->
  StronglySorted (item_before P) (insert_desc x l).
Proof.
  intros Hs. induction Hs as [|y t Hs IH Hf]; intros HP; simpl.
  - repeat constructor.
  - inversion HP as [|? ? HPy HPt]; subst.
    destruct (snd y <=? snd x) eqn:E.
    + apply Nat.leb_le in E. constructor; [now constructor|].
      constructor.
      * unfold item_before. destruct (Nat.eq_dec (snd x) (snd y)); [right | left];
          [tauto | lia].
      * rewrite Forall_forall in *. intros z Hz.
        specialize (Hf z Hz). specialize (HPt z Hz).
        unfold item_before in *.
        destruct (Nat.eq_dec (snd x) (snd z)); [right; tauto | left; lia].
    + apply Nat.leb_gt in E. constructor; [now apply IH|].
      apply Forall_forall. intros z Hz. apply insert_desc_In in Hz.
      destruct Hz as [-> | Hz].
      * left. exact E.
      * rewrite Forall_forall in Hf. now apply Hf.
Qed.

Lemma sorted_desc_sorted (P : str -> str -> Prop) (l : list (str * nat)) :
  StronglySorted (fun x y => P (fst x) (fst y)) l ->
  StronglySorted (item_before P) (sorted_desc l).
Proof.
  induction 1 as [|x t Hs IH Hf]; simpl; [constructor|].
  apply insert_desc_sorted; [assumption|].
  rewrite Forall_forall in *. intros z Hz. apply Hf.
  now apply sorted_desc_In.
Qed.

Lemma insert_desc_perm (x : str * nat) (l : list (str * nat)) :
  Permutation (insert_desc x l) (x :: l).
Proof.
  induction l as [|y t IH]; simpl; [reflexivity|].
  destruct (snd y <=? snd x); [reflexivity|].
  rewrite IH. apply perm_swap.
Qed.

Lemma sorted_desc_perm (l : list (str * nat)) : Permutation (sorted_desc l) l.
Proof.
  induction l as [|x t IH]; simpl; [reflexivity|].
  rewrite insert_desc_perm. now constructor.
Qed.

Lemma StronglySorted_split {A} (R : A -> A -> Prop) (n : nat) (l : list A)
    (a b : A) :
  StronglySorted R l -> In a (firstn n l) -> In b (skipn n l) -> R a b.
Proof.
  intros H. revert n. induction H as [|x l Hs IH Hf]; intros n Ha Hb.
  - now rewrite firstn_nil in Ha.
  - destruct n as [|n]; [contradiction|]. simpl in Ha, Hb.
    destruct Ha as [-> | Ha].
    + rewrite Forall_forall in Hf. apply Hf.
      rewrite <- (firstn_skipn n l). apply in_or_app. now right.
    + now apply IH with (n := n).
Qed.

(** The first [n] items of the sorted counter, by key, are in ranking
    order: the counter lists the words by first occurrence and the sort
    keeps that order among equal counts. *)
Lemma ranking_sorted (ws : list str) (n : nat) :
  StronglySorted (ranks_before ws)
    (map fst (firstn n (sorted_desc (counter_of ws)))).
Proof.
  apply StronglySorted_map, StronglySorted_firstn.
  assert (Hs : StronglySorted
                 (item_before (fun a b => index_of a ws < index_of b ws))
                 (sorted_desc (counter_of ws))).
  { apply sorted_desc_sorted. unfold counter_of.
    apply StronglySorted_map
      with (f := fun k => (k, count k ws))
           (R := fun x y => index_of (fst x) ws < index_of (fst y) ws).
    simpl. apply dict_fromkeys_from_sorted. }
  apply StronglySorted_weaken with (2 := Hs).
  intros a b Ha Hb Hab.
  rewrite sorted_desc_In in Ha, Hb. unfold counter_of in Ha, Hb.
  apply in_map_iff in Ha, Hb.
  destruct Ha as [ka [<- _]], Hb as [kb [<- _]].
  exact Hab.
Qed.

Lemma StronglySorted_nth {A} (R : A -> A -> Prop) (l : list A) (d : A)
    (i j : nat) :
  StronglySorted R l -> i < j -> j < len l -> R (nth i l d) (nth j l d).
Proof.
  intros H. revert i j. induction H as [|a l Hs IH Hf]; intros i j Hij Hj.
  - simpl in Hj. lia.
  - destruct j as [|j]; [lia|]. simpl in Hj. destruct i as [|i]; simpl.
    + rewrite Forall_forall in Hf. apply Hf, nth_In. lia.
    + apply IH; lia.
Qed.

Lemma ranked_NoDup (ws l : list str) :
  StronglySorted (ranks_before ws) l -> NoDup l.
Proof.
  induction 1 as [|a l Hs IH Hf]; constructor; [|assumption].
  intros Hin. rewrite Forall_forall in Hf. specialize (Hf a Hin).
  unfold ranks_before in Hf. lia.
Qed.

Section Ranking.
Variable U : ucd.
Variable str_lower : str -> str.
Variable word_tokenize : str -> list str.
Variable STOPWORDS : list str.

Lemma keyword_summary_spec (text : str) (top_n : option nat) :
  keyword_summary U str_lower word_tokenize STOPWORDS text top_n
  = map fst
      (firstn (match top_n with Some n => n | None => 10 end)
         (sorted_desc
            (counter_of (content_words U str_lower word_tokenize STOPWORDS text)))).
Proof. unfold keyword_summary, most_common. now rewrite Counter_spec. Qed.

(** C8.  The keywords are the first [top_n] words of the ranking of all
    distinct content words of the text: a ranking in which every word is
    more frequent than each word after it, or as frequent and first seen
    earlier.  So the keywords come in that order, two words with equal
    counts stand in the order of their first occurrence, and a word that
    ranks before a keyword is a keyword too. *)
Theorem keyword_summary_ranking (text : str) (top_n : option nat) :
  StronglySorted
    (ranks_before (content_words U str_lower word_tokenize STOPWORDS text))
    (keyword_summary U str_lower word_tokenize STOPWORDS text top_n)
  /\ (exists full,
        Permutation full
          (dict_fromkeys (content_words U str_lower word_tokenize STOPWORDS text))
        /\ StronglySorted
             (ranks_before (content_words U str_lower word_tokenize STOPWORDS text))
             full
        /\ keyword_summary U str_lower word_tokenize STOPWORDS text top_n
           = firstn (match top_n with Some n => n | None => 10 end) full)
  /\ (forall a b,
        In a (content_words U str_lower word_tokenize STOPWORDS text) ->
        ranks_before (content_words U str_lower word_tokenize STOPWORDS text) a b ->
        In b (keyword_summary U str_lower word_tokenize STOPWORDS text top_n) ->
        In a (keyword_summary U str_lower word_tokenize STOPWORDS text top_n)).
Proof.
  rewrite keyword_summary_spec.
  set (ws := content_words U str_lower word_tokenize STOPWORDS text).
  set (n := match top_n with Some n => n | None => 10 end).
  set (full := map fst (sorted_desc (counter_of ws))).
  assert (Hfull : StronglySorted (ranks_before ws) full).
  { pose proof (ranking_sorted ws (len (sorted_desc (counter_of ws)))) as H.
    now rewrite firstn_all in H. }
  assert (Hperm : Permutation full (dict_fromkeys ws)).
  { unfold full. rewrite sorted_desc_perm. unfold counter_of.
    rewrite map_map. simpl. now rewrite map_id. }
  rewrite <- firstn_map. fold full.
  split; [now apply StronglySorted_firstn|].
  split; [exists full; repeat split; assumption|].
  intros a b Ha Hab Hb.
  assert (Hin : In a full).
  { apply (Permutation_in a (Permutation_sym Hperm)).
    now apply dict_fromkeys_In. }
  rewrite <- (firstn_skipn n full) in Hin. apply in_app_or in Hin.
  destruct Hin as [Hin | Hin]; [assumption|]. exfalso.
  pose proof (StronglySorted_split _ n _ _ _ Hfull Hb Hin) as Hba.
  unfold ranks_before in Hab, Hba. unfold str in *. lia.
Qed.

(** The same for two positions of the result: the earlier keyword is at
    least as frequent, and of two equally frequent keywords the earlier
    one is the one first seen earlier in the text. *)
Lemma keyword_summary_pairs (text : str) (top_n : option nat) (i j : nat) :
  let ws := content_words U str_lower word_tokenize STOPWORDS text in
  let r := keyword_summary U str_lower word_tokenize STOPWORDS text top_n in
  i < j -> j < len r ->
  count (nth j r []) ws <= count (nth i r []) ws
  /\ (count (nth i r []) ws = count (nth j r []) ws ->
      index_of (nth i r []) ws < index_of (nth j r []) ws).
Proof.
  intros ws r. subst r. rewrite keyword_summary_spec. fold ws.
  intros Hij Hj.
  pose proof (StronglySorted_nth _ _ [] _ _ (ranking_sorted ws _) Hij Hj) as H.
  unfold ranks_before in H.
  destruct H as [H | [H1 H2]]; split; intros; try assumption.
  - now apply Nat.lt_le_incl.
  - exfalso. unfold str in *. lia.
  - unfold str in *. now apply Nat.eq_le_incl.
Qed.

(** The keywords are pairwise different content words. *)
Lemma keyword_summary_distinct (text : str) (top_n : option nat) :
  NoDup (keyword_summary U str_lower word_tokenize STOPWORDS text top_n)
  /\ forall w,
       In w (keyword_summary U str_lower word_tokenize STOPWORDS text top_n) ->
       In w (content_words U str_lower word_tokenize STOPWORDS text).
Proof.
  split.
  - rewrite keyword_summary_spec. eapply ranked_NoDup, ranking_sorted.
  - rewrite keyword_summary_spec. intros w Hw.
    apply in_map_iff in Hw. destruct Hw as [[k n] [<- Hk]]. simpl.
    apply firstn_In in Hk. rewrite sorted_desc_In in Hk.
    unfold counter_of in Hk.
    apply in_map_iff in Hk. destruct Hk as [k' [E Hk']].
    inversion E; subst. now apply dict_fromkeys_In.
Qed.

Lemma keyword_summary_length (text : str) (top_n : option nat) :
  len (keyword_summary U str_lower word_tokenize STOPWORDS text top_n)
  = Nat.min (match top_n with Some n => n | None => 10 end)
      (len (dict_fromkeys (content_words U str_lower word_tokenize STOPWORDS text))).
Proof.
  rewrite keyword_summary_spec, length_map, length_firstn, sorted_desc_length.
  unfold counter_of. now rewrite length_map.
Qed.

(** C5, as the code has it.  Called without [top_n] the summarizer takes
    N = 10: for a text with at least 10 distinct content words it returns
    exactly 10 keywords. *)
Theorem keyword_summary_default_ten (text : str) :
  10 <= len (dict_fromkeys (content_words U str_lower word_tokenize STOPWORDS text)) ->
  len (keyword_summary U str_lower word_tokenize STOPWORDS text None) = 10.
Proof. intros H. rewrite keyword_summary_length. lia. Qed.

(** With the [top_n=12] that [analyze_contract] passes, twelve distinct
    content words give twelve keywords. *)
Lemma keyword_summary_twelve (text : str) :
  12 <= len (dict_fromkeys (content_words U str_lower word_tokenize STOPWORDS text)) ->
  len (keyword_summary U str_lower word_tokenize STOPWORDS text (Some 12)) = 12.
Proof. intros H. rewrite keyword_summary_length. lia. Qed.

End Ranking.

(** C5, the claim as stated fails.  The text has twelve distinct content
    words, and the call without [top_n] returns ten keywords, not twelve. *)
Lemma keyword_summary_default_not_twelve :
  len (dict_fromkeys
         (content_words ascii_ucd ascii_str_lower simple_words [] twelve_words_text))
  = 12
  /\ keyword_summary ascii_ucd ascii_str_lower simple_words [] twelve_words_text None
     = map u ["alpha"; "beta"; "gamma"; "delta"; "epsilon"; "zeta"; "eta";
              "theta"; "iota"; "kappa"]%string
  /\ len (keyword_summary ascii_ucd ascii_str_lower simple_words []
            twelve_words_text None) <> 12.
Proof.
  split; [vm_compute; reflexivity|].
  split; [vm_compute; reflexivity|]. vm_compute. discriminate.
Qed.

Lemma keyword_summary_default_ten_witness :
  len (keyword_summary ascii_ucd ascii_str_lower simple_words []
         twelve_words_text None) = 10.
Proof.
  apply (keyword_summary_default_ten ascii_ucd ascii_str_lower simple_words []
           twelve_words_text).
  vm_compute. lia.
Defined.

(** A controlled tie: "beta" and "alpha" both occur twice, "beta" first. *)
Example keyword_summary_tie :
  keyword_summary ascii_ucd ascii_str_lower simple_words [] tie_text (Some 12)
  = [u "beta"; u "alpha"; u "gamma"].
Proof. vm_compute. reflexivity. Qed.

(* ===================================================================== *)
(** * Sentences by keyword *)
(* ===================================================================== *)

Lemma is_prefix_spec (p s : str) :
  is_prefix p s = true <-> exists post, s = p ++ post.
Proof.
  revert s. induction p as [|a p IH]; intros s; simpl.
  - split; [intros _; now exists s | reflexivity].
  - destruct s as [|b s].
    + split; [discriminate | intros [post H]; discriminate].
    + rewrite andb_true_iff, N.eqb_eq, IH. split.
      * intros [-> [post ->]]. now exists post.
      * intros [post H]. inversion H; subst. split; [reflexivity | now exists post].
Qed.

Lemma contains_spec (kw s : str) :
  contains kw s = true <-> exists pre post, s = pre ++ kw ++ post.
Proof.
  induction s as [|c t IH].
  - simpl. rewrite orb_false_r, is_prefix_spec. split.
    + intros [post H]. now exists [], post.
    + intros [pre [post H]]. destruct pre; [now exists post | discriminate].
  - cbn [contains]. rewrite orb_true_iff, is_prefix_spec, IH. split.
    + intros [[post H] | [pre [post H]]].
      * now exists [], post.
      * exists (c :: pre), post. simpl. now f_equal.
    + intros [pre [post H]]. destruct pre as [|d pre].
      * left. now exists post.
      * right. inversion H; subst. now exists pre, post.
Qed.

Lemma contains_rev (kw s : str) :
  contains kw s = true -> contains (rev kw) (rev s) = true.
Proof.
  rewrite !contains_spec. intros [pre [post ->]].
  exists (rev post), (rev pre). now rewrite !rev_app_distr, app_assoc.
Qed.

Lemma contains_lstrip (kw s : str) :
  match kw with [] => False | c :: _ => is_space c = false end ->
  contains kw s = true -> contains kw (lstrip s) = true.
Proof.
  intros Hk. unfold lstrip. induction s as [|c t IH]; [trivial|].
  intros H. cbn [dropwhile]. destruct (is_space c) eqn:Hc; [|assumption].
  apply IH. cbn [contains] in H. apply orb_true_iff in H.
  destruct H as [H | H]; [|assumption].
  destruct kw as [|k kw']; [contradiction|]. simpl in H.
  apply andb_true_iff in H. destruct H as [H _]. apply N.eqb_eq in H.
  congruence.
Qed.

Lemma contains_rstrip (kw s : str) :
  match rev kw with [] => False | c :: _ => is_space c = false end ->
  contains kw s = true -> contains kw (rstrip s) = true.
Proof.
  intros Hk H. unfold rstrip. rewrite <- (rev_involutive kw).
  apply contains_rev. apply (contains_lstrip (rev kw) (rev s) Hk).
  now apply contains_rev.
Qed.

(** A keyword found in a string is found in the trimmed string. *)
Lemma contains_strip (kw s : str) :
  keyword_ok kw = true -> contains kw s = true -> contains kw (strip s) = true.
Proof.
  unfold keyword_ok. intros Hk H. apply andb_true_iff in Hk.
  destruct Hk as [Hf Hl]. unfold strip.
  apply contains_rstrip.
  - destruct (rev kw); [discriminate | now apply negb_true_iff].
  - apply contains_lstrip; [|assumption].
    destruct kw; [discriminate | now apply negb_true_iff].
Qed.

Lemma count_firstn_le (x : str) (n : nat) (l : list str) :
  count x (firstn n l) <= count x l.
Proof.
  unfold count. revert l. induction n as [|n IH]; intros [|y l]; simpl; try lia.
  specialize (IH l). destruct (list_eq_dec N.eq_dec y x); lia.
Qed.

Lemma count_filter_le (x : str) (p : str -> bool) (l : list str) :
  count x (map strip (filter p l)) <= count x (map strip l).
Proof.
  unfold count. induction l as [|y l IH]; simpl; [lia|].
  destruct (p y); simpl; destruct (list_eq_dec N.eq_dec (strip y) x); lia.
Qed.

Section Sentences.
Import Patterns.
Variable str_lower : str -> str.
Variable sent_tokenize : str -> list str.

(** The loop of lines 122-127: the trimmed sentences that have a keyword,
    one entry for each such sentence, in the order of the text. *)
Lemma find_sentences_spec (text : str) (keywords : list str) :
  find_sentences_by_keywords str_lower sent_tokenize text keywords
  = map strip (filter (has_keyword str_lower keywords) (sent_tokenize text)).
Proof.
  unfold find_sentences_by_keywords, has_keyword.
  induction (sent_tokenize text) as [|s l IH]; simpl; [reflexivity|].
  rewrite IH. now destruct (existsb _ keywords).
Qed.

Lemma found_sentence_has_keyword (text : str) (keywords : list str) (s : str) :
  lower_commutes_with_strip str_lower ->
  forallb keyword_ok keywords = true ->
  In s (find_sentences_by_keywords str_lower sent_tokenize text keywords) ->
  exists kw, In kw keywords /\ contains kw (str_lower s) = true.
Proof.
  intros Hc Hk. rewrite find_sentences_spec. intros Hs.
  apply in_map_iff in Hs. destruct Hs as [s0 [<- Hs0]].
  apply filter_In in Hs0. destruct Hs0 as [_ Hs0].
  unfold has_keyword in Hs0. apply existsb_exists in Hs0.
  destruct Hs0 as [kw [Hin Hkw]]. exists kw. split; [assumption|].
  rewrite Hc. apply contains_strip; [|assumption].
  rewrite forallb_forall in Hk. now apply Hk.
Qed.

End Sentences.

Section SentenceLists.
Import Patterns.
Variable U : ucd.
Variable str_lower : str -> str.
Variable sent_tokenize : str -> list str.
Variable word_tokenize : str -> list str.
Variable STOPWORDS : list str.
Variable set_iter : list str -> list str.

(** C9.  Every obligation sentence of the record contains an obligation
    keyword, every termination sentence a termination keyword, compared in
    lower case.  Each list is made of the trimmed sentences that have a
    keyword, one entry for each such sentence of the text, whatever the
    number of keywords it has: no string occurs in a list more often than
    among the sentences of the text. *)
Theorem keyword_sentences (text : str) :
  lower_commutes_with_strip str_lower ->
  let r := analyze_text U str_lower sent_tokenize word_tokenize STOPWORDS
             set_iter text in
  let sents := sent_tokenize text in
  (forall s, In s (obligation_sentences r) ->
             exists kw, In kw OBL_KEYWORDS /\ contains kw (str_lower s) = true)
  /\ (forall s, In s (termination_sentences r) ->
                exists kw, In kw TERMINATION_KEYWORDS
                           /\ contains kw (str_lower s) = true)
  /\ obligation_sentences r
     = firstn 10 (map strip (filter (has_keyword str_lower OBL_KEYWORDS) sents))
  /\ termination_sentences r
     = firstn 8 (map strip
                   (filter (has_keyword str_lower TERMINATION_KEYWORDS) sents))
  /\ (forall s, count s (obligation_sentences r) <= count s (map strip sents))
  /\ (forall s, count s (termination_sentences r) <= count s (map strip sents)).
Proof.
  intros Hc r sents. subst r sents. unfold analyze_text.
  cbn [obligation_sentences termination_sentences].
  repeat split.
  - intros s Hs. apply firstn_In in Hs.
    apply (found_sentence_has_keyword str_lower sent_tokenize text OBL_KEYWORDS s Hc);
      [vm_compute; reflexivity | assumption].
  - intros s Hs. apply firstn_In in Hs.
    apply (found_sentence_has_keyword str_lower sent_tokenize text
             TERMINATION_KEYWORDS s Hc);
      [vm_compute; reflexivity | assumption].
  - now rewrite find_sentences_spec.
  - now rewrite find_sentences_spec.
  - intros s. rewrite find_sentences_spec.
    etransitivity; [apply count_firstn_le | apply count_filter_le].
  - intros s. rewrite find_sentences_spec.
    etransitivity; [apply count_firstn_le | apply count_filter_le].
Qed.

End SentenceLists.

(** ** The stand-in [ascii_str_lower] commutes with [strip] *)

Lemma is_space_bounds (c : N) : is_space c = true -> (c <= 32 \/ 133 <= c)%N.
Proof.
  unfold is_space, in_range. intros H.
  repeat (apply orb_true_iff in H; destruct H as [H | H]);
    try (apply andb_true_iff in H; destruct H as [H1 H2];
         apply N.leb_le in H1, H2; lia);
    apply N.eqb_eq in H; lia.
Qed.

Lemma is_space_ascii_tolower (c : N) : is_space (ascii_tolower c) = is_space c.
Proof.
  unfold ascii_tolower. destruct (ascii_upper c) eqn:Hu; [|reflexivity].
  unfold ascii_upper, in_range in Hu. apply andb_true_iff in Hu.
  destruct Hu as [H1 H2]. apply N.leb_le in H1, H2.
  destruct (is_space (c + 32)) eqn:E1.
  - apply is_space_bounds in E1. lia.
  - destruct (is_space c) eqn:E2; [|reflexivity].
    apply is_space_bounds in E2. lia.
Qed.

Lemma dropwhile_map_lower (s : str) :
  dropwhile is_space (map ascii_tolower s)
  = map ascii_tolower (dropwhile is_space s).
Proof.
  induction s as [|c t IH]; simpl; [reflexivity|].
  rewrite is_space_ascii_tolower. now destruct (is_space c).
Qed.

Lemma ascii_lower_commutes : lower_commutes_with_strip ascii_str_lower.
Proof.
  intros s. unfold ascii_str_lower, strip, rstrip, lstrip.
  now rewrite dropwhile_map_lower, <- map_rev, dropwhile_map_lower, map_rev.
Qed.

Lemma keyword_sentences_witness :
  obligation_sentences
    (analyze_text ascii_ucd ascii_str_lower simple_sentences simple_words []
       dict_fromkeys scenario)
  = firstn 10
      (map strip
         (filter (has_keyword ascii_str_lower Patterns.OBL_KEYWORDS)
            (simple_sentences scenario))).
Proof.
  exact (proj1 (proj2 (proj2
           (keyword_sentences ascii_ucd ascii_str_lower simple_sentences
              simple_words [] dict_fromkeys scenario ascii_lower_commutes)))).
Defined.

(** The obligation and termination sentences of the scenario. *)
Example scenario_sentences :
  let r := analyze_text ascii_ucd ascii_str_lower simple_sentences simple_words
             [] dict_fromkeys scenario in
  obligation_sentences r
  = [u "This Agreement is made between Acme Corp and Beta LLC on 1 January 2024.";
     u "Acme shall pay Beta ₹50,000 within 30 days.";
     u "This Agreement may be terminated with 30 days notice."]
  /\ termination_sentences r
     = [u "This Agreement may be terminated with 30 days notice."].
Proof. vm_compute. split; reflexivity. Qed.

(* ===================================================================== *)
(** * More about the keyword summarizer *)
(* ===================================================================== *)

Section MoreRanking.
Variable U : ucd.
Variable str_lower : str -> str.
Variable word_tokenize : str -> list str.
Variable STOPWORDS : list str.

(** X1.  The keywords are pairwise different, none of them is a stop word,
    and each is the lower-case form of an alphabetic token of the text. *)
Theorem keywords_distinct_content (text : str) (top_n : option nat) :
  NoDup (keyword_summary U str_lower word_tokenize STOPWORDS text top_n)
  /\ Forall
       (fun k => str_in k STOPWORDS = false
                 /\ exists w, In w (word_tokenize text) /\ isalpha U w = true
                              /\ k = str_lower w)
       (keyword_summary U str_lower word_tokenize STOPWORDS text top_n).
Proof.
  destruct (keyword_summary_distinct U str_lower word_tokenize STOPWORDS
              text top_n) as [Hnd Hin].
  split; [assumption|]. apply Forall_forall. intros k Hk.
  apply Hin in Hk. unfold content_words in Hk.
  apply in_map_iff in Hk. destruct Hk as [w [<- Hw]].
  apply filter_In in Hw. destruct Hw as [Hw Hc].
  apply andb_true_iff in Hc. destruct Hc as [Ha Hs].
  split; [now apply negb_true_iff|]. now exists w.
Qed.

(** X2.  The summarizer returns as many keywords as asked for, or all
    distinct content words when there are fewer; in that case every
    content word is among the keywords. *)
Theorem keyword_summary_size (text : str) (top_n : option nat) :
  let n := match top_n with Some n => n | None => 10 end in
  let ws := content_words U str_lower word_tokenize STOPWORDS text in
  let ks := keyword_summary U str_lower word_tokenize STOPWORDS text top_n in
  len ks = Nat.min n (len (dict_fromkeys ws))
  /\ (len (dict_fromkeys ws) <= n -> Permutation ks (dict_fromkeys ws)).
Proof.
  intros n ws ks. subst n ws ks. split; [apply keyword_summary_length|].
  intros Hle. rewrite keyword_summary_spec.
  rewrite firstn_all2.
  - rewrite sorted_desc_perm. unfold counter_of. rewrite map_map. simpl.
    now rewrite map_id.
  - rewrite sorted_desc_length. unfold counter_of. now rewrite length_map.
Qed.

(** X3.  Asking for fewer keywords gives a prefix of what asking for more
    gives: the ranking does not depend on [top_n]. *)
Theorem keyword_summary_prefix (text : str) (n m : nat) :
  n <= m ->
  keyword_summary U str_lower word_tokenize STOPWORDS text (Some n)
  = firstn n (keyword_summary U str_lower word_tokenize STOPWORDS text (Some m)).
Proof.
  intros H. rewrite !keyword_summary_spec.
  rewrite <- firstn_map, <- firstn_map, firstn_firstn.
  now rewrite Nat.min_l.
Qed.

(** X4.  The keywords are the most frequent content words: a content word
    that is not returned occurs no more often than any keyword that is. *)
Theorem keyword_summary_most_frequent (text : str) (top_n : option nat)
    (w k : str) :
  let ws := content_words U str_lower word_tokenize STOPWORDS text in
  let ks := keyword_summary U str_lower word_tokenize STOPWORDS text top_n in
  str_in w ws = true -> str_in w ks = false -> str_in k ks = true ->
  count w ws <= count k ws.
Proof.
  intros ws ks Hw Hnw Hk. subst ks.
  apply str_in_In in Hw, Hk. apply str_in_not_In in Hnw.
  rewrite keyword_summary_spec in Hk, Hnw. fold ws in Hk, Hnw.
  set (n := match top_n with Some n => n | None => 10 end) in *.
  set (full := map fst (sorted_desc (counter_of ws))).
  assert (Hfull : StronglySorted (ranks_before ws) full).
  { pose proof (ranking_sorted ws (len (sorted_desc (counter_of ws)))) as H.
    now rewrite firstn_all in H. }
  rewrite <- firstn_map in Hk, Hnw. fold full in Hk, Hnw.
  assert (Hin : In w full).
  { unfold full. apply in_map_iff.
    exists (w, count w ws). split; [reflexivity|].
    apply sorted_desc_In. unfold counter_of. apply in_map_iff.
    exists w. split; [reflexivity|]. now apply dict_fromkeys_In. }
  rewrite <- (firstn_skipn n full) in Hin. apply in_app_or in Hin.
  destruct Hin as [Hin | Hin]; [contradiction|].
  pose proof (StronglySorted_split _ n _ _ _ Hfull Hk Hin) as R.
  unfold ranks_before in R. unfold str in *. lia.
Qed.

End MoreRanking.

Lemma keyword_summary_prefix_witness :
  keyword_summary ascii_ucd ascii_str_lower simple_words [] twelve_words_text
    (Some 10)
  = firstn 10
      (keyword_summary ascii_ucd ascii_str_lower simple_words []
         twelve_words_text (Some 12)).
Proof.
  apply (keyword_summary_prefix ascii_ucd ascii_str_lower simple_words []
           twelve_words_text 10 12).
  lia.
Defined.

Lemma keyword_summary_most_frequent_witness :
  count (u "lambda")
    (content_words ascii_ucd ascii_str_lower simple_words [] twelve_words_text)
  <= count (u "alpha")
       (content_words ascii_ucd ascii_str_lower simple_words [] twelve_words_text).
Proof.
  apply (keyword_summary_most_frequent ascii_ucd ascii_str_lower simple_words
           [] twelve_words_text None (u "lambda") (u "alpha"));
    vm_compute; reflexivity.
Defined.

(* ===================================================================== *)
(** * More about the money and party extractors *)
(* ===================================================================== *)

Lemma append_groups_Forall (U : ucd) (P : str -> Prop) (gs found : list str) :
  (forall g, 3 <= len (strip g) -> P (strip g)) ->
  Forall P found -> Forall P (append_groups U gs found).
Proof.
  intros HP. revert found. induction gs as [|g rest IH]; intros found Hf.
  - exact Hf.
  - cbn [append_groups].
    match goal with
    | |- context [if nonempty ?x && (2 <? len ?x) then _ else _] =>
        destruct (nonempty x && (2 <? len x)) eqn:E
    end.
    + apply IH. apply Forall_app. split; [assumption|].
      constructor; [|constructor].
      apply andb_true_iff in E. destruct E as [_ E]. apply Nat.ltb_lt in E.
      apply HP. exact E.
    + now apply IH.
Qed.

(** The pattern loop returns what the first pattern with a non-empty yield
    yields. *)
Lemma party_loop_first_nonempty (U : ucd) (pats : list regex) (text_clean : str) :
  party_loop U pats text_clean []
  = first_nonempty (map (fun pat => pattern_yield U pat text_clean) pats).
Proof.
  induction pats as [|pat rest IH]; [reflexivity|].
  cbn [party_loop map first_nonempty]. unfold pattern_yield at 1 2.
  destruct (Re.search U true pat text_clean) as [m|]; [|exact IH].
  destruct (append_groups U (truthy_groups m) []) as [|x l] eqn:E;
    [exact IH | reflexivity].
Qed.

Lemma first_nonempty_Forall (P : str -> Prop) (ls : list (list str)) :
  Forall (Forall P) ls -> Forall P (first_nonempty ls).
Proof.
  induction 1 as [|l rest Hl _ IH]; simpl; [constructor|].
  now destruct (nonempty l).
Qed.

Lemma first_nonempty_app (ls : list (list str)) (l : list str) :
  first_nonempty (ls ++ [l])
  = match first_nonempty ls with [] => l | x :: t => x :: t end.
Proof.
  induction ls as [|a rest IH]; simpl.
  - now destruct l.
  - destruct a as [|x t]; simpl; [exact IH | reflexivity].
Qed.

Lemma firstn_Forall {A} (P : A -> Prop) (n : nat) (l : list A) :
  Forall P l -> Forall P (firstn n l).
Proof.
  rewrite !Forall_forall. intros H x Hx. apply H. now apply firstn_In with (n := n).
Qed.

Lemma uniq_loop_Forall (str_lower : str -> str) (STOPWORDS : list str)
    (P : str -> Prop) (caps uniq : list str) :
  (forall cap, str_in (str_lower (strip cap)) STOPWORDS = false ->
               4 <= len (strip cap) -> P (strip cap)) ->
  Forall P uniq -> Forall P (uniq_loop str_lower STOPWORDS caps uniq).
Proof.
  intros HP. revert uniq. induction caps as [|cap rest IH]; intros uniq Hf.
  - exact Hf.
  - cbn [uniq_loop].
    match goal with
    | |- context [if ?c then uniq ++ [?x] else uniq] =>
        remember (if c then uniq ++ [x] else uniq) as uniq' eqn:Eu
    end.
    assert (Hf' : Forall P uniq').
    { subst uniq'.
      destruct (str_in (str_lower (strip cap)) STOPWORDS) eqn:Es;
        [exact Hf|].
      destruct (3 <? len (strip cap)) eqn:El; [|exact Hf].
      destruct (negb (str_in (strip cap) uniq)); [|exact Hf]. simpl.
      apply Forall_app. split; [assumption|].
      constructor; [|constructor]. apply Nat.ltb_lt in El. now apply HP. }
    destruct (2 <=? len uniq'); [assumption | now apply IH].
Qed.

Section MoreExtractors.
Import Patterns.
Variable U : ucd.
Variable str_lower : str -> str.
Variable STOPWORDS : list str.

(** X5.  The money values are pairwise different trimmed matches of
    MONEY_PAT, in the order in which they first occur in the text; with at
    most ten distinct matches none is left out. *)
Theorem extract_money_first_seen (text : str) :
  let cleaned := money_candidates U text in
  let ms := extract_money U text in
  NoDup ms
  /\ Forall (fun m => In m cleaned /\ strip m = m) ms
  /\ StronglySorted (fun a b => index_of a cleaned < index_of b cleaned) ms
  /\ (len (dict_fromkeys cleaned) <= 10 -> ms = dict_fromkeys cleaned).
Proof.
  intros cleaned ms. subst ms. unfold extract_money. fold (money_candidates U text).
  fold cleaned. repeat split.
  - apply firstn_NoDup, dict_fromkeys_NoDup.
  - apply firstn_Forall, Forall_forall. intros m Hm.
    pose proof (proj1 (dict_fromkeys_In _ _) Hm) as Hc. split; [exact Hc|].
    unfold cleaned, money_candidates in Hc. apply in_map_iff in Hc.
    destruct Hc as [y [<- _]]. apply strip_idempotent.
  - apply StronglySorted_firstn, dict_fromkeys_from_sorted.
  - intros H. now apply firstn_all2.
Qed.

(** X6.  The parties are what the first party pattern with a usable match
    yields, the heading fallback when no pattern yields anything, cut to
    two: yields of different patterns are never mixed. *)
Theorem extract_parties_first_yield (text : str) :
  extract_parties U str_lower STOPWORDS text
  = firstn 2
      (first_nonempty
         (map (fun pat => pattern_yield U pat (join (u " ") (split_ws text)))
              PARTY_PATTERNS
          ++ [heading_fallback U str_lower STOPWORDS text])).
Proof.
  unfold extract_parties. rewrite party_loop_first_nonempty, first_nonempty_app.
  now destruct (first_nonempty _).
Qed.

(** X7.  Every party returned is trimmed and has at least three
    characters. *)
Theorem extract_parties_trimmed (text : str) :
  Forall (fun p => strip p = p /\ 3 <= len p)
    (extract_parties U str_lower STOPWORDS text).
Proof.
  unfold extract_parties. rewrite party_loop_first_nonempty.
  apply firstn_Forall.
  set (P := fun p : str => strip p = p /\ 3 <= len p).
  destruct (first_nonempty _) as [|x l] eqn:E.
  - apply uniq_loop_Forall; [|constructor].
    intros cap _ Hl. split; [apply strip_idempotent | lia].
  - rewrite <- E. apply first_nonempty_Forall.
    apply Forall_forall. intros ys Hys. apply in_map_iff in Hys.
    destruct Hys as [pat [<- _]]. unfold pattern_yield.
    destruct (Re.search U true pat _); [|constructor].
    apply append_groups_Forall; [|constructor].
    intros g Hg. split; [apply strip_idempotent | exact Hg].
Qed.

(** X8.  When no party pattern yields a name, the parties come from the
    headings: they are pairwise different, none is a stop word in lower
    case, and each is trimmed and has at least four characters. *)
Theorem extract_parties_headings (text : str) :
  party_loop U PARTY_PATTERNS (join (u " ") (split_ws text)) [] = [] ->
  let ps := extract_parties U str_lower STOPWORDS text in
  ps = firstn 2 (heading_fallback U str_lower STOPWORDS text)
  /\ NoDup ps
  /\ Forall (fun p => str_in (str_lower p) STOPWORDS = false
                      /\ strip p = p /\ 4 <= len p) ps.
Proof.
  intros H ps. subst ps. unfold extract_parties. rewrite H.
  fold (heading_fallback U str_lower STOPWORDS text). repeat split.
  - apply firstn_NoDup, uniq_loop_NoDup. constructor.
  - apply firstn_Forall, uniq_loop_Forall; [|constructor].
    intros cap Hs Hl. repeat split; [assumption | apply strip_idempotent | assumption].
Qed.

End MoreExtractors.

Lemma extract_parties_headings_witness :
  extract_parties ascii_ucd ascii_str_lower [] heading_text
  = firstn 2 (heading_fallback ascii_ucd ascii_str_lower [] heading_text).
Proof.
  apply (extract_parties_headings ascii_ucd ascii_str_lower [] heading_text).
  vm_compute. reflexivity.
Defined.

Example extract_parties_heading_text :
  extract_parties ascii_ucd ascii_str_lower [] heading_text
  = [u "MASTER AGREEMENT"; u "ACME CORP"].
Proof. vm_compute. reflexivity. Qed.

(* ===================================================================== *)
(** * The one-line text has single spaces only *)
(* ===================================================================== *)

Lemma single_spaced_tail (c : N) (t : str) :
  single_spaced (c :: t) -> single_spaced t.
Proof. destruct t as [|d t']; simpl; tauto. Qed.

Lemma single_spaced_skipn (n : nat) (s : str) :
  single_spaced s -> single_spaced (skipn n s).
Proof.
  revert s. induction n as [|n IH]; intros s H; [exact H|].
  destruct s as [|c t]; [exact H|]. simpl. apply IH.
  now apply single_spaced_tail with (c := c).
Qed.

Lemma single_spaced_firstn (n : nat) (s : str) :
  single_spaced s -> single_spaced (firstn n s).
Proof.
  revert s. induction n as [|n IH]; intros s H; [exact I|].
  destruct s as [|c t]; [exact I|].
  pose proof (IH t (single_spaced_tail c t H)) as Ht.
  destruct t as [|d t']; [destruct n; exact I|].
  destruct n as [|n']; [exact I|].
  simpl in H. destruct H as [H _]. cbn [firstn] in *. split; assumption.
Qed.

Lemma single_spaced_slice (s : str) (a b : nat) :
  single_spaced s -> single_spaced (Re.slice s a b).
Proof.
  intros H. unfold Re.slice. now apply single_spaced_firstn, single_spaced_skipn.
Qed.

(** The words of [split] are not empty and have no white space. *)
Lemma split_ws_from_words (cur s : str) :
  forallb (fun c => negb (is_space c)) cur = true ->
  Forall (fun w => w <> [] /\ forallb (fun c => negb (is_space c)) w = true)
    (split_ws_from cur s).
Proof.
  revert cur. induction s as [|c t IH]; intros cur Hcur; simpl.
  - destruct cur as [|x cur']; simpl; [constructor|].
    constructor; [|constructor]. split.
    + intros E. apply (f_equal (@rev N)) in E.
      rewrite rev_app_distr, rev_involutive in E. simpl in E. discriminate.
    + change (rev cur' ++ [x]) with (rev (x :: cur')).
      rewrite forallb_forall in *. intros y Hy. apply Hcur. now apply in_rev.
  - destruct (is_space c) eqn:Hc.
    + destruct cur as [|x cur']; simpl; [now apply IH|].
      constructor; [|now apply IH]. split.
      * intros E. apply (f_equal (@rev N)) in E.
        rewrite rev_app_distr, rev_involutive in E. simpl in E. discriminate.
      * change (rev cur' ++ [x]) with (rev (x :: cur')).
        rewrite forallb_forall in *. intros y Hy. apply Hcur. now apply in_rev.
    + apply IH. simpl. now rewrite Hc, Hcur.
Qed.

Lemma word_then_single_spaced (w rest : str) :
  forallb (fun c => negb (is_space c)) w = true ->
  single_spaced rest -> single_spaced (w ++ rest).
Proof.
  induction w as [|c t IH]; intros Hw Hr; [exact Hr|].
  simpl in Hw. apply andb_true_iff in Hw. destruct Hw as [Hc Ht].
  specialize (IH Ht Hr). apply negb_true_iff in Hc.
  cbn [app]. destruct (t ++ rest) as [|d r] eqn:E; [exact I|].
  split; [|exact IH]. intros Hs. congruence.
Qed.

Lemma join_words_single_spaced (ws : list str) :
  Forall (fun w => w <> [] /\ forallb (fun c => negb (is_space c)) w = true) ws ->
  single_spaced (join (u " ") ws)
  /\ match join (u " ") ws with [] => True | c :: _ => is_space c = false end.
Proof.
  induction 1 as [|w rest [Hne Hw] Hrest [IH1 IH2]]; [split; exact I|].
  assert (Hhead : forall tail, match w ++ tail with
                               | [] => True
                               | c :: _ => is_space c = false
                               end).
  { intros tail. destruct w as [|c t]; [congruence|]. simpl in *.
    apply andb_true_iff in Hw. destruct Hw as [Hc _]. now apply negb_true_iff. }
  destruct rest as [|w2 rest'].
  - simpl. split.
    + rewrite <- (app_nil_r w). now apply word_then_single_spaced.
    + rewrite <- (app_nil_r w). apply Hhead.
  - change (join (u " ") (w :: w2 :: rest'))
      with (w ++ u " " ++ join (u " ") (w2 :: rest')).
    split; [|apply Hhead].
    apply word_then_single_spaced; [assumption|].
    change (u " " ++ join (u " ") (w2 :: rest'))
      with (32%N :: join (u " ") (w2 :: rest')).
    destruct (join (u " ") (w2 :: rest')) as [|d r] eqn:E; [exact I|].
    split; [intros _; exact IH2 | exact IH1].
Qed.

Lemma text_clean_single_spaced (text : str) :
  single_spaced (join (u " ") (split_ws text)).
Proof.
  apply join_words_single_spaced. unfold split_ws.
  now apply split_ws_from_words.
Qed.

(** \s{2,} finds nothing in a text with single spaces only. *)
Lemma spaces2_no_match (U : ucd) (text : str) (prev : option uchar) (pos : nat) :
  single_spaced text ->
  Re.match_at false Patterns.SPACES2 (map (classify U) text) prev pos = None.
Proof.
  intros H. unfold Re.match_at, Patterns.SPACES2, Re.at_least. cbn [Re.rmatch].
  destruct text as [|c t]; [reflexivity|].
  cbn [map Re.m_rest Re.rep_greedy Re.below andb].
  assert (Hsp : forall x, Re.cset_match false Re.space (classify U x) = is_space x).
  { intros x. unfold Re.cset_match, Re.space. simpl.
    now rewrite orb_false_r. }
  rewrite Hsp. destruct (is_space c) eqn:Hc; [|reflexivity].
  destruct t as [|d t']; [reflexivity|].
  cbn [map Re.rep_greedy Re.below andb]. rewrite Hsp.
  simpl in H. destruct H as [H _]. now rewrite (H Hc).
Qed.

Lemma spaces2_scan_nil (U : ucd) (text : str) (prev : option uchar) (pos : nat) :
  single_spaced text ->
  Re.scan false Patterns.SPACES2 0 (map (classify U) text) prev pos = [].
Proof.
  revert prev pos. induction text as [|c t IH]; intros prev pos H.
  - cbn [map Re.scan].
    pose proof (spaces2_no_match U [] prev pos H) as E.
    cbn [map] in E. now rewrite E.
  - cbn [map Re.scan].
    pose proof (spaces2_no_match U (c :: t) prev pos H) as E.
    cbn [map] in E. rewrite E. apply IH.
    now apply single_spaced_tail with (c := c).
Qed.

Lemma truthy_group_is_slice (U : ucd) (pat : regex) (text : str)
    (m : Re.match_obj) (g : str) :
  Re.search U true pat text = Some m -> In g (truthy_groups m) ->
  exists a b, g = Re.slice text a b.
Proof.
  unfold Re.search. intros Hm Hg.
  destruct (Re.search_from true pat (map (classify U) text) None 0)
    as [[start st]|]; [|discriminate].
  simpl in Hm. inversion Hm; subst m. clear Hm.
  unfold truthy_groups in Hg. apply in_flat_map in Hg.
  destruct Hg as [og [Hog Hg]]. cbn [Re.mk_match Re.mo_groups] in Hog.
  apply in_map_iff in Hog. destruct Hog as [i [Hi _]].
  destruct (Re.cap_lookup i (Re.m_caps st)) as [[a b]|]; simpl in Hi; subst og.
  - destruct (nonempty (Re.slice text a b)); [|contradiction].
    destruct Hg as [<- | []]. now exists a, b.
  - contradiction.
Qed.

Section IdleSubstitution.
Import Patterns.
Variable U : ucd.

(** X9.  On the pattern path the substitution of runs of white space by
    one space (line 96) never changes a captured group: the text searched
    is the one-line text, which has single spaces only. *)
Theorem spaces_substitution_idle (text : str) (pat : regex)
    (m : Re.match_obj) (g : str) :
  Re.search U true pat (join (u " ") (split_ws text)) = Some m ->
  In g (truthy_groups m) ->
  Re.sub U SPACES2 (u " ") g = g.
Proof.
  intros Hm Hg.
  destruct (truthy_group_is_slice U pat _ m g Hm Hg) as [a [b ->]].
  unfold Re.sub, Re.finditer.
  rewrite spaces2_scan_nil; [reflexivity|].
  apply single_spaced_slice, text_clean_single_spaced.
Qed.

End IdleSubstitution.

Lemma spaces_substitution_idle_witness :
  Re.sub ascii_ucd Patterns.SPACES2 (u " ") (u "Acme Corp") = u "Acme Corp".
Proof.
  eapply spaces_substitution_idle
    with (text := scenario) (pat := hd Eps Patterns.PARTY_PATTERNS).
  - vm_compute. reflexivity.
  - vm_compute. left. reflexivity.
Defined.

(* ===================================================================== *)
(** * More about sentences, the summary and the loaders *)
(* ===================================================================== *)

Lemma contains_trans (a b s : str) :
  contains a b = true -> contains b s = true -> contains a s = true.
Proof.
  rewrite !contains_spec. intros [p1 [q1 ->]] [p2 [q2 ->]].
  exists (p2 ++ p1), (q1 ++ q2). now rewrite <- !app_assoc.
Qed.

(** Keywords that contain another keyword of the list decide nothing. *)
Lemma has_keyword_core (str_lower : str -> str) (K K' : list str) (s : str) :
  forallb (fun kw => existsb (fun kw' => contains kw' kw) K') K = true ->
  forallb (fun kw' => str_in kw' K) K' = true ->
  has_keyword str_lower K s = has_keyword str_lower K' s.
Proof.
  intros H1 H2. rewrite forallb_forall in H1, H2. unfold has_keyword.
  destruct (existsb _ K') eqn:E'.
  - apply existsb_exists in E'. destruct E' as [kw' [Hin Hc]].
    apply existsb_exists. exists kw'. split; [|assumption].
    apply str_in_In, H2, Hin.
  - destruct (existsb _ K) eqn:E; [|reflexivity].
    apply existsb_exists in E. destruct E as [kw [Hin Hc]].
    specialize (H1 kw Hin). apply existsb_exists in H1.
    destruct H1 as [kw' [Hin' Hc']].
    assert (Ht : existsb (fun kw0 => contains kw0 (str_lower s)) K' = true).
    { apply existsb_exists. exists kw'. split; [assumption|].
      now apply contains_trans with (b := kw). }
    rewrite E' in Ht. discriminate.
Qed.

Lemma join_head_nonempty (sep s : str) (rest : list str) :
  s <> [] -> join sep (s :: rest) <> [].
Proof.
  intros Hs. destruct rest as [|r rest']; simpl; [assumption|].
  destruct s; [congruence | discriminate].
Qed.

Lemma split_on_from_app (sep : N) (p cur s : str) :
  ~ In sep p ->
  split_on_from sep cur (p ++ s) = split_on_from sep (rev p ++ cur) s.
Proof.
  revert cur. induction p as [|c t IH]; intros cur Hn; [reflexivity|].
  simpl. destruct (N.eqb_spec c sep) as [-> | Hne].
  - exfalso. apply Hn. now left.
  - rewrite IH by (intros Hin; apply Hn; now right).
    now rewrite <- app_assoc.
Qed.

(** Splitting at the separator undoes joining with it. *)
Lemma split_on_join (sep : N) (ps : list str) :
  ps <> [] -> Forall (fun p => ~ In sep p) ps ->
  split_on sep (join [sep] ps) = ps.
Proof.
  intros Hne H. unfold split_on. induction H as [|p rest Hp Hrest IH];
    [exfalso; now apply Hne|].
  destruct rest as [|q rest'].
  - simpl. pose proof (split_on_from_app sep p [] [] Hp) as E.
    rewrite app_nil_r in E. rewrite E. simpl.
    now rewrite app_nil_r, rev_involutive.
  - change (join [sep] (p :: q :: rest'))
      with (p ++ sep :: join [sep] (q :: rest')).
    rewrite split_on_from_app by assumption. cbn [split_on_from].
    rewrite N.eqb_refl, app_nil_r, rev_involutive. f_equal.
    apply IH. discriminate.
Qed.

Section MoreAnalyzer.
Import Patterns.
Variable U : ucd.
Variable str_lower : str -> str.
Variable sent_tokenize : str -> list str.
Variable word_tokenize : str -> list str.
Variable STOPWORDS : list str.
Variable set_iter : list str -> list str.
Variable fs : filesystem.

(** X10.  Three keywords never decide: a sentence with "agrees", "notice
    period" or "cancelled" has "agree", "notice" or "cancel" as well, so
    the lists without them select the same sentences. *)
Theorem redundant_keywords (text : str) :
  find_sentences_by_keywords str_lower sent_tokenize text OBL_KEYWORDS
  = find_sentences_by_keywords str_lower sent_tokenize text OBL_CORE
  /\ find_sentences_by_keywords str_lower sent_tokenize text TERMINATION_KEYWORDS
     = find_sentences_by_keywords str_lower sent_tokenize text TERMINATION_CORE.
Proof.
  rewrite !find_sentences_spec. split; f_equal; apply filter_ext; intros s;
    apply has_keyword_core; vm_compute; reflexivity.
Qed.

(** X11.  When the tokenizer returns no empty sentence, the short summary
    is empty exactly when the text has no sentence. *)
Theorem short_summary_empty_iff (text : str) :
  Forall (fun s => s <> []) (sent_tokenize text) ->
  short_summary
    (analyze_text U str_lower sent_tokenize word_tokenize STOPWORDS set_iter text)
  = []
  <-> sent_tokenize text = [].
Proof.
  intros H. unfold analyze_text. cbn [short_summary].
  destruct (sent_tokenize text) as [|s rest]; [tauto|].
  inversion H as [|? ? Hs _]; subst. split; [|discriminate].
  intros E. exfalso. cbn [firstn] in E.
  exact (join_head_nonempty (u " ") s (firstn 3 rest) Hs E).
Qed.

(** X12.  A .docx file cannot be analyzed without python-docx: the
    RuntimeError of [read_docx] comes out of [analyze_contract]. *)
Theorem analyze_docx_without_library (path : str) :
  fs_exists fs path = inr true ->
  str_lower (fs_suffix fs path) = u ".docx" ->
  fs_docx fs = None ->
  analyze_contract U str_lower sent_tokenize word_tokenize STOPWORDS set_iter
    fs path
  = inl (RuntimeError
           (u "python-docx not installed. Install via pip install python-docx")).
Proof.
  intros He Hs Hd. unfold analyze_contract, load_file, read_docx.
  rewrite He, Hs, Hd. reflexivity.
Qed.

(** X13.  The text of a document has one line for each paragraph:
    splitting it at the newlines gives the paragraphs back, when no
    paragraph has a newline of its own. *)
Theorem read_docx_paragraphs (document : str -> exn + list str) (path : str)
    (paragraphs : list str) :
  fs_docx fs = Some document -> document path = inr paragraphs ->
  paragraphs <> [] -> Forall (fun p => ~ In 10%N p) paragraphs ->
  read_docx fs path = inr (join [10%N] paragraphs)
  /\ split_on 10%N (join [10%N] paragraphs) = paragraphs.
Proof.
  intros Hd Hp Hne Hnl. unfold read_docx. rewrite Hd, Hp.
  split; [reflexivity | now apply split_on_join].
Qed.

End MoreAnalyzer.

Lemma short_summary_empty_iff_witness :
  short_summary
    (analyze_text ascii_ucd ascii_str_lower simple_sentences simple_words []
       dict_fromkeys scenario)
  = []
  <-> simple_sentences scenario = [].
Proof.
  apply (short_summary_empty_iff ascii_ucd ascii_str_lower simple_sentences
           simple_words [] dict_fromkeys scenario).
  vm_compute. repeat constructor; discriminate.
Defined.

Lemma analyze_docx_without_library_witness :
  analyze_contract ascii_ucd ascii_str_lower simple_sentences simple_words []
    dict_fromkeys no_docx_lib_fs (u "uploads/contract.docx")
  = inl (RuntimeError
           (u "python-docx not installed. Install via pip install python-docx")).
Proof.
  apply analyze_docx_without_library; vm_compute; reflexivity.
Defined.

Lemma read_docx_paragraphs_witness :
  split_on 10%N (join [10%N] [u "SERVICE AGREEMENT"; u "Acme shall pay Beta."])
  = [u "SERVICE AGREEMENT"; u "Acme shall pay Beta."].
Proof.
  eapply (read_docx_paragraphs one_docx_fs _ (u "uploads/contract.docx")).
  - reflexivity.
  - reflexivity.
  - discriminate.
  - repeat constructor; vm_compute;
      intros H; repeat (destruct H as [H | H]; [discriminate|]); exact H.
Defined.

(* ===================================================================== *)
(** * Upload names *)
(* ===================================================================== *)

Lemma rfind_None (c : N) (s : str) : rfind c s = None -> ~ In c s.
Proof.
  induction s as [|x t IH]; simpl; [tauto|].
  destruct (rfind c t); [discriminate|].
  destruct (N.eqb_spec x c); [discriminate|].
  intros _ [E | Hin]; [congruence | now apply IH].
Qed.

Lemma rfind_Some (c : N) (s : str) (i : nat) :
  rfind c s = Some i ->
  s = firstn i s ++ c :: skipn (S i) s /\ ~ In c (skipn (S i) s).
Proof.
  revert i. induction s as [|x t IH]; intros i; simpl; [discriminate|].
  destruct (rfind c t) as [j|] eqn:E.
  - intros H. inversion H; subst i. destruct (IH j eq_refl) as [E1 E2].
    split; [|exact E2]. cbn [firstn app]. now rewrite <- E1.
  - destruct (N.eqb_spec x c) as [-> | Hne]; [|discriminate].
    intros H. inversion H; subst i. simpl. split; [reflexivity|].
    now apply rfind_None.
Qed.

Lemma split_on_from_chars (sep : N) (cur s w : str) :
  In w (split_on_from sep cur s) ->
  forall x, In x w -> In x cur \/ (In x s /\ x <> sep).
Proof.
  revert cur. induction s as [|c t IH]; intros cur Hw x Hx; simpl in Hw.
  - destruct Hw as [<- | []]. left. now apply in_rev.
  - destruct (N.eqb_spec c sep) as [-> | Hne].
    + destruct Hw as [<- | Hw].
      * left. now apply in_rev.
      * destruct (IH [] Hw x Hx) as [[] | [H1 H2]]. right. split; [now right | assumption].
    + destruct (IH (c :: cur) Hw x Hx) as [[<- | H] | [H1 H2]].
      * right. split; [now left | assumption].
      * now left.
      * right. split; [now right | assumption].
Qed.

(** The components of a path are not empty, are not ["."], have no slash,
    and are made of characters of the path. *)
Lemma path_parts_clean (p : str) :
  Forall (fun w => w <> [] /\ w <> [46%N] /\ ~ In 47%N w
                   /\ forall x, In x w -> In x p)
    (path_parts p).
Proof.
  unfold path_parts. apply Forall_forall. intros w Hw.
  apply filter_In in Hw. destruct Hw as [Hw Hf].
  apply andb_true_iff in Hf. destruct Hf as [Hne Hdot].
  repeat split.
  - destruct w; [discriminate | congruence].
  - apply negb_true_iff, str_eqb_neq in Hdot. exact Hdot.
  - intros H47. destruct (split_on_from_chars 47 [] p w Hw 47%N H47)
      as [[] | [_ H]]. congruence.
  - intros x Hx. destruct (split_on_from_chars 47 [] p w Hw x Hx)
      as [[] | [H _]]. exact H.
Qed.

Lemma last_In {A} (l : list A) (d : A) : l <> [] -> In (last l d) l.
Proof.
  induction l as [|x t IH]; [congruence|]. intros _.
  destruct t as [|y t']; [now left|]. right. apply IH. discriminate.
Qed.

Lemma In_contains (c : N) (s : str) : In c s -> contains [c] s = true.
Proof.
  intros H. apply contains_spec. apply in_split in H.
  destruct H as [l1 [l2 ->]]. now exists l1, l2.
Qed.

(** A non-empty suffix starts at a dot of the name that has something
    before it and something without a dot after it. *)
Lemma path_suffix_shape (p : str) :
  path_suffix p <> [] ->
  exists stem ext,
    path_name p = stem ++ 46%N :: ext /\ path_suffix p = 46%N :: ext
    /\ stem <> [] /\ ext <> [] /\ ~ In 46%N ext.
Proof.
  unfold path_suffix. destruct (rfind 46 (path_name p)) as [i|] eqn:E;
    [|congruence].
  destruct ((0 <? i) && (i <? len (path_name p) - 1)) eqn:B; [|congruence].
  intros _. apply andb_true_iff in B. destruct B as [B1 B2].
  apply Nat.ltb_lt in B1, B2.
  destruct (rfind_Some 46 (path_name p) i E) as [E1 E2].
  exists (firstn i (path_name p)), (skipn (S i) (path_name p)).
  assert (Hsk : skipn i (path_name p) = 46%N :: skipn (S i) (path_name p)).
  { rewrite E1 at 1. rewrite skipn_app, length_firstn.
    replace (i - Nat.min i (len (path_name p))) with 0 by lia.
    rewrite skipn_all2 by (rewrite length_firstn; lia). reflexivity. }
  repeat split.
  - exact E1.
  - exact Hsk.
  - intros H. apply (f_equal (@List.length N)) in H.
    rewrite length_firstn in H. simpl in H. lia.
  - intros H. apply (f_equal (@List.length N)) in H.
    rewrite length_skipn in H. simpl in H. lia.
  - exact E2.
Qed.

Lemma path_name_chars (p : str) (x : N) : In x (path_name p) -> In x p.
Proof.
  unfold path_name. intros H.
  destruct (path_parts p) as [|w l] eqn:E; [contradiction|].
  pose proof (path_parts_clean p) as F. rewrite E in F.
  rewrite Forall_forall in F.
  destruct (F (last (w :: l) []) (last_In (w :: l) [] ltac:(discriminate)))
    as (_ & _ & _ & Hch).
  now apply Hch.
Qed.

Section Uploads.
Variable str_lower : str -> str.
Hypothesis lower_empty : str_lower [] = [].

(** X14.  The test for a dot in [allowed_file] never decides: a name is
    allowed exactly when its suffix in lower case is .txt or .docx. *)
Theorem allowed_file_by_suffix (filename : str) :
  allowed_file str_lower filename
  = str_in (str_lower (path_suffix filename)) ALLOWED.
Proof.
  unfold allowed_file.
  destruct (str_in (str_lower (path_suffix filename)) ALLOWED) eqn:E;
    [|apply andb_false_r].
  rewrite andb_true_r.
  destruct (path_suffix filename) as [|c0 s0] eqn:Es.
  - rewrite lower_empty in E. discriminate.
  - assert (Hne : path_suffix filename <> []) by (rewrite Es; discriminate).
    destruct (path_suffix_shape filename Hne)
      as (stem & ext & Hname & _ & _ & _ & _).
    apply In_contains, path_name_chars. rewrite Hname.
    apply in_or_app. right. now left.
Qed.

(** X15.  An allowed name ends in a component of the form stem.ext with
    both parts non-empty and no dot in ext: a bare ".txt", or a name that
    ends with a dot, is refused. *)
Theorem allowed_file_name_shape (filename : str) :
  allowed_file str_lower filename = true ->
  exists stem ext,
    path_name filename = stem ++ 46%N :: ext
    /\ stem <> [] /\ ext <> [] /\ ~ In 46%N ext
    /\ str_in (str_lower (46%N :: ext)) ALLOWED = true.
Proof.
  unfold allowed_file. intros H. apply andb_true_iff in H.
  destruct H as [_ H].
  assert (Hne : path_suffix filename <> []).
  { intros E. rewrite E, lower_empty in H. discriminate. }
  destruct (path_suffix_shape filename Hne)
    as (stem & ext & Hname & Hsuf & H1 & H2 & H3).
  exists stem, ext. rewrite Hsuf in H. tauto.
Qed.

End Uploads.

Lemma allowed_file_by_suffix_witness :
  allowed_file ascii_str_lower (u "notes.v2.TXT")
  = str_in (ascii_str_lower (path_suffix (u "notes.v2.TXT"))) ALLOWED.
Proof.
  apply (allowed_file_by_suffix ascii_str_lower).
  reflexivity.
Defined.

Lemma allowed_file_name_shape_witness :
  exists stem ext,
    path_name (u "notes.v2.TXT") = stem ++ 46%N :: ext
    /\ stem <> [] /\ ext <> [] /\ ~ In 46%N ext
    /\ str_in (ascii_str_lower (46%N :: ext)) ALLOWED = true.
Proof.
  apply (allowed_file_name_shape ascii_str_lower); reflexivity.
Defined.

(** Names that [allowed_file] refuses and accepts. *)
Example allowed_file_examples :
  map (allowed_file ascii_str_lower)
      [u "a.txt"; u "A.DOCX"; u ".txt"; u "a.txt."; u "a.pdf"; u "txt";
       u "dir.txt/a"; u "a.txt/"]
  = [true; true; false; false; false; false; false; true].
Proof. vm_compute. reflexivity. Qed.

(* ===================================================================== *)
(** * Where an upload is saved and how it is read *)
(* ===================================================================== *)

Lemma filter_all {A} (f : A -> bool) (l : list A) :
  Forall (fun x => f x = true) l -> filter f l = l.
Proof.
  induction 1 as [|x t Hx _ IH]; simpl; [reflexivity|]. now rewrite Hx, IH.
Qed.

Lemma path_parts_slash (p : str) : path_parts (47%N :: p) = path_parts p.
Proof. reflexivity. Qed.

(** Parsing the string of clean components gives the components back. *)
Lemma path_parts_join (parts : list str) :
  parts <> [] ->
  Forall (fun w => w <> [] /\ w <> [46%N] /\ ~ In 47%N w) parts ->
  path_parts (join [47%N] parts) = parts.
Proof.
  intros Hne H. unfold path_parts. rewrite split_on_join.
  - apply filter_all. apply Forall_forall. intros w Hw.
    rewrite Forall_forall in H. destruct (H w Hw) as (H1 & H2 & _).
    apply andb_true_iff. split.
    + destruct w; [congruence | reflexivity].
    + now apply negb_true_iff, str_eqb_neq.
  - assumption.
  - apply Forall_forall. intros w Hw. rewrite Forall_forall in H.
    now destruct (H w Hw) as (_ & _ & H3).
Qed.

Lemma path_root_cases (p : str) :
  path_root p = [] \/ path_root p = [47%N] \/ path_root p = [47; 47]%N.
Proof.
  unfold path_root. destruct (_ =? 0); [now left|].
  destruct (_ =? 2); [now right; right | now right; left].
Qed.

Lemma path_parts_str (root : str) (parts : list str) :
  root = [] \/ root = [47%N] \/ root = [47; 47]%N ->
  parts <> [] ->
  Forall (fun w => w <> [] /\ w <> [46%N] /\ ~ In 47%N w) parts ->
  path_parts (path_str root parts) = parts.
Proof.
  intros Hr Hne H.
  assert (E : path_str root parts = root ++ join [47%N] parts).
  { unfold path_str. destruct root; [|reflexivity].
    destruct parts; [congruence | reflexivity]. }
  rewrite E. destruct Hr as [-> | [-> | ->]]; cbn [app];
    rewrite ?path_parts_slash; now apply path_parts_join.
Qed.

Lemma path_parts_clean3 (p : str) :
  Forall (fun w => w <> [] /\ w <> [46%N] /\ ~ In 47%N w) (path_parts p).
Proof.
  pose proof (path_parts_clean p) as H. rewrite Forall_forall in *.
  intros w Hw. destruct (H w Hw) as (H1 & H2 & H3 & _). tauto.
Qed.

Lemma dropwhile_length (f : N -> bool) (s : str) : len (dropwhile f s) <= len s.
Proof.
  induction s as [|c t IH]; simpl; [lia|]. destruct (f c); simpl; lia.
Qed.

Lemma path_root_absolute (p : str) :
  nonempty (path_root p) = is_prefix [47%N] p.
Proof.
  destruct p as [|c t]; [reflexivity|].
  unfold path_root. cbn [is_prefix]. rewrite andb_true_r.
  destruct (N.eqb_spec 47 c) as [<- | Hne].
  - cbn [dropwhile]. change (is_slash 47) with true. cbn iota.
    pose proof (dropwhile_length is_slash t) as L.
    remember (len (47%N :: t) - len (dropwhile is_slash t)) as k eqn:Ek.
    assert (Hk : k <> 0) by (subst k; cbn [List.length]; unfold str in *; lia).
    destruct (k =? 0) eqn:E0; [apply Nat.eqb_eq in E0; contradiction|].
    now destruct (k =? 2).
  - cbn [dropwhile]. assert (Hc : is_slash c = false).
    { unfold is_slash. apply N.eqb_neq. congruence. }
    rewrite Hc, Nat.sub_diag. reflexivity.
Qed.

Lemma is_prefix_app (p s : str) : is_prefix p (p ++ s) = true.
Proof. apply is_prefix_spec. now exists s. Qed.

(** The name of the saved file is the name of the upload. *)
Lemma save_path_name (filename : str) :
  path_parts filename <> [] ->
  path_name (save_path filename) = path_name filename.
Proof.
  intros Hne. unfold save_path, path_join, path_name.
  destruct (nonempty (path_root filename)).
  - rewrite path_parts_str; [reflexivity | apply path_root_cases | assumption
                            | apply path_parts_clean3].
  - change (path_root UPLOAD_FOLDER) with (@nil N).
    change (path_parts UPLOAD_FOLDER) with [u "uploads"].
    rewrite path_parts_str.
    + cbn [app]. destruct (path_parts filename); [congruence | reflexivity].
    + now left.
    + discriminate.
    + constructor; [|apply path_parts_clean3].
      repeat split; [discriminate | discriminate |].
      vm_compute. intros H.
      repeat (destruct H as [H | H]; [discriminate|]). exact H.
Qed.

Section SavedUploads.
Variable str_lower : str -> str.
Variable fs : filesystem.

(** X16.  An allowed upload that has been saved is read by the reader its
    name asks for: [read_docx] for .docx, [read_text] for .txt, whatever
    the case of the letters; [fs_suffix] being the suffix of [pathlib]. *)
Theorem allowed_upload_reader (filename : str) :
  str_lower [] = [] ->
  (forall p, fs_suffix fs p = path_suffix p) ->
  allowed_file str_lower filename = true ->
  fs_exists fs (save_path filename) = inr true ->
  (str_lower (path_suffix filename) = u ".docx"
   /\ load_file str_lower fs (save_path filename)
      = read_docx fs (save_path filename))
  \/ (str_lower (path_suffix filename) = u ".txt"
      /\ load_file str_lower fs (save_path filename)
         = read_text fs (save_path filename)).
Proof.
  intros Hl Hsuf Ha He. unfold allowed_file in Ha.
  apply andb_true_iff in Ha. destruct Ha as [_ Ha].
  assert (Hne : path_parts filename <> []).
  { intros E. unfold path_suffix, path_name in Ha. rewrite E in Ha.
    simpl in Ha. rewrite Hl in Ha. discriminate. }
  assert (Hs : path_suffix (save_path filename) = path_suffix filename).
  { unfold path_suffix. now rewrite save_path_name. }
  unfold load_file. rewrite He, Hsuf, Hs. cbn [negb].
  apply str_in_In in Ha. destruct Ha as [E | [E | []]].
  - right. rewrite <- E. split; reflexivity.
  - left. rewrite <- E. split; reflexivity.
Qed.

End SavedUploads.

(** X17.  An upload whose name starts with a slash is saved at that
    absolute path, not in the upload folder; every other upload is saved
    at a path that starts with "uploads". *)
Theorem save_path_root (filename : str) :
  if is_prefix [47%N] filename
  then save_path filename = path_norm filename
       /\ is_prefix [47%N] (save_path filename) = true
  else is_prefix (u "uploads") (save_path filename) = true.
Proof.
  unfold save_path, path_join. rewrite path_root_absolute.
  destruct (is_prefix [47%N] filename) eqn:E.
  - split; [reflexivity|]. rewrite <- path_root_absolute in E.
    unfold path_str. destruct (path_root_cases filename) as [R | [R | R]];
      rewrite R in *; [discriminate | reflexivity | reflexivity].
  - change (path_root UPLOAD_FOLDER) with (@nil N).
    change (path_parts UPLOAD_FOLDER) with [u "uploads"].
    cbn [app path_str join]. destruct (path_parts filename).
    + reflexivity.
    + apply is_prefix_app.
Qed.

Lemma allowed_upload_reader_witness :
  (ascii_str_lower (path_suffix (u "contract.txt")) = u ".docx"
   /\ load_file ascii_str_lower one_file_fs (save_path (u "contract.txt"))
      = read_docx one_file_fs (save_path (u "contract.txt")))
  \/ (ascii_str_lower (path_suffix (u "contract.txt")) = u ".txt"
      /\ load_file ascii_str_lower one_file_fs (save_path (u "contract.txt"))
         = read_text one_file_fs (save_path (u "contract.txt"))).
Proof.
  apply (allowed_upload_reader ascii_str_lower one_file_fs (u "contract.txt"));
    reflexivity.
Defined.

(** Upload names and where they are saved. *)
Example save_path_examples :
  map save_path [u "contract.txt"; u "/etc/contract.txt"; u "../contract.txt";
                 u "a//./b.docx"]
  = [u "uploads/contract.txt"; u "/etc/contract.txt";
     u "uploads/../contract.txt"; u "uploads/a/b.docx"].
Proof. vm_compute. reflexivity. Qed.

(* ===================================================================== *)
(** * The script and its report *)
(* ===================================================================== *)

Lemma contains_refl (s : str) : contains s s = true.
Proof. apply contains_spec. exists [], []. now rewrite app_nil_r. Qed.

Lemma contains_app_or (x a b : str) :
  contains x a = true \/ contains x b = true -> contains x (a ++ b) = true.
Proof.
  rewrite !contains_spec. intros [[p [q ->]] | [p [q ->]]].
  - exists p, (q ++ b). now rewrite <- !app_assoc.
  - exists (a ++ p), q. now rewrite <- !app_assoc.
Qed.

Lemma contains_item_line (x : str) (items : list str) :
  In x items -> contains (u " - " ++ x ++ [10%N]) (item_lines items) = true.
Proof.
  intros H. apply in_split in H. destruct H as [l1 [l2 ->]].
  unfold item_lines. rewrite flat_map_app. cbn [flat_map].
  apply contains_app_or. right. apply contains_app_or. left.
  apply contains_refl.
Qed.

Ltac find_part H :=
  repeat (apply contains_app_or; first [left; exact H | right]);
  try exact H.

Section ScriptProperties.
Variable U : ucd.
Variable str_lower : str -> str.
Variable sent_tokenize : str -> list str.
Variable word_tokenize : str -> list str.
Variable STOPWORDS : list str.
Variable set_iter : list str -> list str.
Variable fs : filesystem.

(** X18.  The script writes a report only after the file named by its
    first argument has been loaded, and what it prints and writes is the
    analysis of the text of that file. *)
Theorem main_done (argv : list str) (out rep : str) :
  main U str_lower sent_tokenize word_tokenize STOPWORDS set_iter fs argv
  = Done out rep ->
  2 <= len argv
  /\ exists text,
       load_file str_lower fs (nth 1 argv []) = inr text
       /\ rep = report_text
                  (analyze_text U str_lower sent_tokenize word_tokenize
                     STOPWORDS set_iter text)
       /\ out = pretty_print
                  (analyze_text U str_lower sent_tokenize word_tokenize
                     STOPWORDS set_iter text)
                ++ print [[10%N] ++ u "Analysis saved to report_output.txt"].
Proof.
  unfold main, analyze_contract.
  destruct (len argv <? 2) eqn:E; [discriminate|].
  apply Nat.ltb_ge in E.
  destruct (load_file str_lower fs (nth 1 argv [])) as [e | text];
    [discriminate|].
  intros H. inversion H; subst. split; [assumption|].
  exists text. repeat split.
Qed.


End ScriptProperties.

(** X20.  Nothing of the record is missing in the report file or on the
    screen: every party, date, money value and sentence has its own
    [" - "] line in both, and the report has the keywords joined by commas
    and the summary. *)
Theorem report_lists_everything (res : analysis) :
  Forall (fun x =>
            contains (u " - " ++ x ++ [10%N]) (report_text res) = true
            /\ contains (u " - " ++ x ++ [10%N]) (pretty_print res) = true)
    (parties res ++ dates_found res ++ money_values res
     ++ obligation_sentences res ++ termination_sentences res)
  /\ contains (join (u ", ") (top_keywords res)) (report_text res) = true
  /\ contains (short_summary res) (report_text res) = true.
Proof.
  repeat split.
  - apply Forall_forall. intros x Hx.
    assert (H : exists items,
               In items [parties res; dates_found res; money_values res;
                         obligation_sentences res; termination_sentences res]
               /\ contains (u " - " ++ x ++ [10%N]) (item_lines items) = true).
    { repeat (apply in_app_or in Hx; destruct Hx as [Hx | Hx]);
        eexists; (split; [|apply contains_item_line; exact Hx]);
        simpl; tauto. }
    destruct H as [items [Hi Hc]]. unfold report_text, pretty_print.
    simpl in Hi.
    destruct Hi as [<- | [<- | [<- | [<- | [<- | []]]]]];
      split; find_part Hc.
  - unfold report_text.
    pose proof (contains_refl (join (u ", ") (top_keywords res))) as H.
    find_part H.
  - unfold report_text. pose proof (contains_refl (short_summary res)) as H.
    find_part H.
Qed.


Lemma main_done_witness :
  exists text,
    load_file ascii_str_lower one_file_fs (u "uploads/contract.txt") = inr text.
Proof.
  pose (r := analyze_text ascii_ucd ascii_str_lower simple_sentences
               simple_words [] dict_fromkeys
               (u "Acme shall pay Beta. Beta may terminate.")).
  destruct (main_done ascii_ucd ascii_str_lower simple_sentences simple_words
              [] dict_fromkeys one_file_fs
              [u "contract_analyzer.py"; u "uploads/contract.txt"]
              (pretty_print r
               ++ print [[10%N] ++ u "Analysis saved to report_output.txt"])
              (report_text r))
    as [_ [text [Hl _]]].
  - vm_compute. reflexivity.
  - exists text. exact Hl.
Defined.

(** The report of the one-file run. *)
Example report_of_one_file :
  report_text
    (analyze_text ascii_ucd ascii_str_lower simple_sentences simple_words []
       dict_fromkeys (u "Acme shall pay Beta. Beta may terminate."))
  = u "--- Contract Analysis ---" ++ [10; 10]%N
    ++ u "Parties (guessed):" ++ [10%N]
    ++ [10%N] ++ u "Important Dates (guessed):" ++ [10%N]
    ++ [10%N] ++ u "Money / Amounts:" ++ [10%N]
    ++ [10%N] ++ u "Obligation sentences:" ++ [10%N]
    ++ u " - Acme shall pay Beta." ++ [10%N]
    ++ [10%N] ++ u "Termination / Notice sentences:" ++ [10%N]
    ++ u " - Beta may terminate." ++ [10%N]
    ++ [10%N] ++ u "Top keywords:" ++ [10%N]
    ++ u "acme, shall, pay, beta, may"
    ++ [10; 10]%N ++ u "Short extractive summary:" ++ [10%N]
    ++ u "Acme shall pay Beta. Beta may terminate."
    ++ [10; 10]%N ++ u "-------------------------" ++ [10%N].
Proof. vm_compute. reflexivity. Qed.

(* ===================================================================== *)
(** * Dates and money are pieces of the text *)
(* ===================================================================== *)

Lemma contains_nil (s : str) : contains [] s = true.
Proof. destruct s; reflexivity. Qed.

Lemma contains_slice (text : str) (a b : nat) :
  contains (Re.slice text a b) text = true.
Proof.
  apply contains_spec. unfold Re.slice.
  exists (firstn a text), (skipn (b - a) (skipn a text)).
  now rewrite firstn_skipn, firstn_skipn.
Qed.

Lemma contains_strip_self (s : str) : contains (strip s) s = true.
Proof.
  apply contains_spec. unfold strip, rstrip, lstrip.
  destruct (dropwhile_suffix is_space s) as [pre [E1 _]].
  destruct (dropwhile_suffix is_space (rev (dropwhile is_space s)))
    as [post [E2 _]].
  exists pre, (rev post).
  rewrite <- rev_app_distr, <- E2, rev_involutive. exact E1.
Qed.

Lemma split_on_from_piece (sep : N) (cur s w : str) :
  In w (split_on_from sep cur s) -> contains w (rev cur ++ s) = true.
Proof.
  revert cur. induction s as [|c t IH]; intros cur Hw; simpl in Hw.
  - destruct Hw as [<- | []]. rewrite app_nil_r. apply contains_refl.
  - destruct (c =? sep)%N.
    + destruct Hw as [<- | Hw].
      * apply contains_app_or. left. apply contains_refl.
      * apply contains_app_or. right.
        specialize (IH [] Hw). simpl in IH.
        change (c :: t) with ([c] ++ t). apply contains_app_or. now right.
    + specialize (IH (c :: cur) Hw). simpl in IH.
      now rewrite <- app_assoc in IH.
Qed.

(** What [findall] returns is cut out of the text. *)
Lemma findall_piece (U : ucd) (ic : bool) (r : regex) (text x : str) :
  In x (Re.findall U ic r text) -> contains x text = true.
Proof.
  unfold Re.findall, Re.finditer. rewrite map_map. intros H.
  apply in_map_iff in H. destruct H as [[start st] [<- _]].
  cbn [Re.mk_match Re.mo_groups Re.mo_group0 fst snd].
  destruct (seq 1 (Re.ngroups r)) as [|i l]; cbn [map].
  - apply contains_slice.
  - destruct (Re.cap_lookup i (Re.m_caps st)) as [[a b]|]; simpl.
    + apply contains_slice.
    + apply contains_nil.
Qed.

Section Verbatim.
Variable U : ucd.
Variable set_iter : list str -> list str.

(** X21.  Every date and every money value is a piece of the text, word
    for word, without white space around it. *)
Theorem dates_and_money_verbatim (text : str) :
  set_order_ok set_iter ->
  Forall (fun d => contains d text = true /\ strip d = d)
    (extract_dates U set_iter text)
  /\ Forall (fun m => contains m text = true /\ strip m = m)
       (extract_money U text).
Proof.
  intros Hset. split.
  - unfold extract_dates. apply firstn_Forall, Forall_forall. intros d Hd.
    destruct (Hset (date_candidates U text)) as [_ Hin].
    apply Hin in Hd. split.
    + unfold date_candidates in Hd. apply in_map_iff in Hd.
      destruct Hd as [y [<- Hy]].
      apply contains_trans with (b := y); [apply contains_strip_self|].
      apply in_app_or in Hy. destruct Hy as [Hy | Hy];
        [|now apply findall_piece in Hy].
      destruct (Re.findall U true Patterns.DATE_PAT text) as [|g0 gs] eqn:E;
        [contradiction|].
      apply in_flat_map in Hy. destruct Hy as [grp [Hg Hy]].
      apply filter_In in Hy. destruct Hy as [Hy _].
      apply contains_trans with (b := grp).
      * apply (split_on_from_piece 10 [] grp y Hy).
      * apply findall_piece with (U := U) (ic := true) (r := Patterns.DATE_PAT).
        now rewrite E.
    + pose proof (date_candidates_trimmed U text) as F.
      rewrite Forall_forall in F. now apply F.
  - unfold extract_money. apply firstn_Forall, Forall_forall. intros m Hm.
    pose proof (proj1 (dict_fromkeys_In _ _) Hm) as Hc.
    apply in_map_iff in Hc. destruct Hc as [y [<- Hy]]. split.
    + apply contains_trans with (b := y); [apply contains_strip_self|].
      now apply findall_piece in Hy.
    + apply strip_idempotent.
Qed.

End Verbatim.

Lemma dates_and_money_verbatim_witness :
  Forall (fun d => contains d two_dates_text = true /\ strip d = d)
    (extract_dates ascii_ucd set_rev two_dates_text)
  /\ Forall (fun m => contains m two_dates_text = true /\ strip m = m)
       (extract_money ascii_ucd two_dates_text).
Proof.
  apply (dates_and_money_verbatim ascii_ucd set_rev two_dates_text).
  apply set_rev_order_ok.
Defined.

(* ===================================================================== *)
(** * What the matcher hands to its continuation *)
(* ===================================================================== *)

Lemma skipn_step {A} (n : nat) (l : list A) (c : A) (t : list A) :
  skipn n l = c :: t -> skipn (S n) l = t.
Proof.
  revert l. induction n as [|n IH]; intros l H.
  - simpl in H. now subst l.
  - destruct l as [|x l']; [discriminate|]. simpl in H. now apply IH.
Qed.

Section Through.
Variable ctext : list uchar.
Variable ic : bool.
(** A property of the captures that setting the groups at hand keeps. *)
Variable C : list (nat * (nat * nat)) -> Prop.

Lemma rep_greedy_through (a : cset) (lo : nat) (hi : option nat)
    (k : Re.mstate -> option Re.mstate) (caps : list (nat * (nat * nat)))
    (res : Re.mstate) :
  forall rest n prev pos,
    Re.rep_greedy ic a lo hi k n rest prev pos caps = Some res ->
    rest = skipn pos ctext ->
    exists s1, k s1 = Some res /\ in_text ctext s1 /\ Re.m_caps s1 = caps.
Proof.
  assert (Hacc : forall n rest prev pos,
             Re.accept lo n k (Re.Build_mstate rest prev pos caps) = Some res ->
             rest = skipn pos ctext ->
             exists s1, k s1 = Some res /\ in_text ctext s1 /\ Re.m_caps s1 = caps).
  { intros n rest prev pos H E. unfold Re.accept in H.
    destruct (lo <=? n); [|discriminate].
    exists (Re.Build_mstate rest prev pos caps). repeat split; assumption. }
  induction rest as [|c t IH]; intros n prev pos H E.
  - cbn [Re.rep_greedy] in H. now apply Hacc in H.
  - cbn [Re.rep_greedy] in H.
    destruct (Re.below hi n && Re.cset_match ic a c).
    + destruct (Re.rep_greedy ic a lo hi k (S n) t (Some c) (S pos) caps)
        as [r|] eqn:Er.
      * inversion H; subst r. apply (IH _ _ _ Er).
        symmetry. apply skipn_step with (c := c). now symmetry.
      * now apply Hacc in H.
    + now apply Hacc in H.
Qed.

Lemma rep_lazy_through (a : cset) (lo : nat) (hi : option nat)
    (k : Re.mstate -> option Re.mstate) (caps : list (nat * (nat * nat)))
    (res : Re.mstate) :
  forall rest n prev pos,
    Re.rep_lazy ic a lo hi k n rest prev pos caps = Some res ->
    rest = skipn pos ctext ->
    exists s1, k s1 = Some res /\ in_text ctext s1 /\ Re.m_caps s1 = caps.
Proof.
  induction rest as [|c t IH]; intros n prev pos H E; cbn [Re.rep_lazy] in H.
  - destruct (Re.accept lo n k (Re.Build_mstate [] prev pos caps)) as [r|] eqn:Ea;
      [|discriminate].
    inversion H; subst r. unfold Re.accept in Ea.
    destruct (lo <=? n); [|discriminate].
    exists (Re.Build_mstate [] prev pos caps). repeat split; assumption.
  - destruct (Re.accept lo n k (Re.Build_mstate (c :: t) prev pos caps))
      as [r|] eqn:Ea.
    + inversion H; subst r. unfold Re.accept in Ea.
      destruct (lo <=? n); [|discriminate].
      exists (Re.Build_mstate (c :: t) prev pos caps). repeat split; assumption.
    + destruct (Re.below hi n && Re.cset_match ic a c); [|discriminate].
      apply (IH _ _ _ H). symmetry. apply skipn_step with (c := c). now symmetry.
Qed.

(** A match of [r] followed by [k] is a result of [k], at a state inside
    the text whose captures still have the property. *)
Lemma rmatch_through (r : regex) :
  (forall i sp caps, In i (group_ids r) -> C caps -> C ((i, sp) :: caps)) ->
  forall (k : Re.mstate -> option Re.mstate) (s res : Re.mstate),
    Re.rmatch ic r k s = Some res ->
    in_text ctext s -> C (Re.m_caps s) ->
    exists s1, k s1 = Some res /\ in_text ctext s1 /\ C (Re.m_caps s1).
Proof.
  induction r as [| a | | r1 IH1 r2 IH2 | r1 IH1 r2 IH2 | i r1 IH1 | r1 IH1
                  | greedy lo hi a];
    intros HC k s res H Hin Hc; cbn [Re.rmatch] in H.
  - now exists s.
  - destruct (Re.m_rest s) as [|c t] eqn:Er; [discriminate|].
    destruct (Re.cset_match ic a c); [|discriminate].
    eexists. split; [exact H|]. split; [|exact Hc].
    unfold in_text in *. cbn [Re.m_rest Re.m_pos].
    symmetry. apply skipn_step with (c := c). rewrite <- Hin. exact Er.
  - destruct (Re.at_boundary s); [|discriminate]. now exists s.
  - destruct (IH1 (fun i sp caps Hi => HC i sp caps
                     (in_or_app _ _ _ (or_introl Hi)))
                  _ _ _ H Hin Hc) as [s' [H' [Hin' Hc']]].
    exact (IH2 (fun i sp caps Hi => HC i sp caps
                  (in_or_app _ _ _ (or_intror Hi)))
               _ _ _ H' Hin' Hc').
  - destruct (Re.rmatch ic r1 k s) as [x|] eqn:E1.
    + inversion H; subst x.
      exact (IH1 (fun i sp caps Hi => HC i sp caps
                    (in_or_app _ _ _ (or_introl Hi)))
                 _ _ _ E1 Hin Hc).
    + exact (IH2 (fun i sp caps Hi => HC i sp caps
                    (in_or_app _ _ _ (or_intror Hi)))
                 _ _ _ H Hin Hc).
  - destruct (IH1 (fun j sp caps Hj => HC j sp caps (or_intror Hj))
                  _ _ _ H Hin Hc) as [s' [H' [Hin' Hc']]].
    exists (Re.set_cap i (Re.m_pos s) s'). split; [exact H'|].
    split; [exact Hin'|]. cbn [Re.set_cap Re.m_caps].
    apply HC; [now left | exact Hc'].
  - destruct (Re.rmatch ic r1 k s) as [x|] eqn:E1.
    + inversion H; subst x. exact (IH1 HC _ _ _ E1 Hin Hc).
    + now exists s.
  - destruct greedy.
    + destruct (rep_greedy_through a lo hi k (Re.m_caps s) res _ _ _ _ H Hin)
        as [s1 [H1 [H2 H3]]].
      exists s1. rewrite H3. auto.
    + destruct (rep_lazy_through a lo hi k (Re.m_caps s) res _ _ _ _ H Hin)
        as [s1 [H1 [H2 H3]]].
      exists s1. rewrite H3. auto.
Qed.

End Through.

(* ===================================================================== *)
(** * The group after "and" is one word *)
(* ===================================================================== *)

Lemma lazy_tail_run (ic : bool) (j start : nat)
    (caps : list (nat * (nat * nat))) (res : Re.mstate) :
  forall rest p n pos,
    1 <= n ->
    Re.rep_lazy ic Dot 1 None
      (fun s' => Re.rmatch ic WordB Some (Re.set_cap j start s'))
      n rest (Some p) pos caps = Some res ->
    exists m, m <= len rest /\ one_run (p :: firstn m rest)
              /\ Re.m_caps res = (j, (start, pos + m)) :: caps.
Proof.
  induction rest as [|c t IH]; intros p n pos Hn H;
    destruct n as [|n']; try lia; cbn [Re.rep_lazy] in H;
    unfold Re.accept in H; cbn [Nat.leb] in H; cbn [Re.rmatch] in H.
  - destruct (Re.at_boundary _); [|discriminate].
    inversion H; subst res. exists 0. cbn [Re.set_cap Re.m_caps Re.m_pos].
    rewrite Nat.add_0_r. split; [apply Nat.le_0_l|].
    split; [exact I | reflexivity].
  - destruct (Re.at_boundary _) eqn:Eb.
    + inversion H; subst res. exists 0. cbn [Re.set_cap Re.m_caps Re.m_pos].
      rewrite Nat.add_0_r. split; [apply Nat.le_0_l|].
      split; [exact I | reflexivity].
    + destruct (Re.below None (S n') && Re.cset_match ic Dot c); [|discriminate].
      destruct (IH c (S (S n')) (S pos) ltac:(lia) H) as [m [Hm [Hrun Hcaps]]].
      exists (S m). cbn [firstn List.length]. split; [lia|]. split.
      * cbn [one_run]. split; [|exact Hrun].
        unfold Re.at_boundary in Eb. cbn [Re.set_cap Re.m_prev Re.m_rest] in Eb.
        now destruct (wordc p), (wordc c).
      * rewrite Hcaps. now rewrite Nat.add_succ_r.
Qed.

(** [(.+?)\b] at the end of a pattern: the group takes characters up to
    the first word boundary after its first character. *)
Lemma lazy_group_tail (ic : bool) (j : nat) (s res : Re.mstate) :
  Re.rmatch ic (Seq (Group j (Re.lazy_plus Dot)) WordB) Some s = Some res ->
  exists n, 1 <= n /\ n <= len (Re.m_rest s)
            /\ one_run (firstn n (Re.m_rest s))
            /\ Re.m_caps res = (j, (Re.m_pos s, Re.m_pos s + n)) :: Re.m_caps s.
Proof.
  intros H.
  change (Re.rep_lazy ic Dot 1 None
            (fun s' => Re.rmatch ic WordB Some (Re.set_cap j (Re.m_pos s) s'))
            0 (Re.m_rest s) (Re.m_prev s) (Re.m_pos s) (Re.m_caps s) = Some res)
    in H.
  destruct (Re.m_rest s) as [|c t]; cbn [Re.rep_lazy] in H;
    unfold Re.accept at 1 in H; cbn [Nat.leb] in H; [discriminate|].
  destruct (Re.below None 0 && Re.cset_match ic Dot c); [|discriminate].
  destruct (lazy_tail_run ic j (Re.m_pos s) (Re.m_caps s) res t c 1
              (S (Re.m_pos s)) (le_n 1) H) as [m [Hm [Hrun Hcaps]]].
  exists (S m). cbn [List.length firstn]. repeat split; try lia; [exact Hrun|].
  rewrite Hcaps. now rewrite Nat.add_succ_r.
Qed.

Lemma seq_step (ctext : list uchar) (ic : bool) (a b : regex)
    (k : Re.mstate -> option Re.mstate) (s res : Re.mstate) :
  Re.rmatch ic (Seq a b) k s = Some res -> in_text ctext s ->
  exists s1, Re.rmatch ic b k s1 = Some res /\ in_text ctext s1.
Proof.
  intros H Hin.
  destruct (rmatch_through ctext ic (fun _ => True) a (fun _ _ _ _ _ => I)
              (Re.rmatch ic b k) s res H Hin I) as [s1 [H1 [H2 _]]].
  now exists s1.
Qed.

Lemma search_from_match (ctext : list uchar) (ic : bool) (r : regex) :
  forall rest prev pos p res,
    rest = skipn pos ctext ->
    Re.search_from ic r rest prev pos = Some (p, res) ->
    exists prev', Re.match_at ic r (skipn p ctext) prev' p = Some res.
Proof.
  induction rest as [|c t IH]; intros prev pos p res E H;
    cbn [Re.search_from] in H.
  - destruct (Re.match_at ic r [] prev pos) as [x|] eqn:Em; [|discriminate].
    inversion H; subst. exists prev. now rewrite <- E.
  - destruct (Re.match_at ic r (c :: t) prev pos) as [x|] eqn:Em.
    + inversion H; subst. exists prev. now rewrite <- E.
    + apply (IH _ _ _ _ (eq_sym (skipn_step _ _ _ _ (eq_sym E))) H).
Qed.

Lemma one_run_classified (U : ucd) (g : str) :
  one_run (map (classify U) g) -> no_boundary_inside U g.
Proof.
  induction g as [|c t IH]; [trivial|]. destruct t as [|d t']; [trivial|].
  cbn [map one_run no_boundary_inside] in *. intros [H1 H2]. split; [exact H1|].
  now apply IH.
Qed.

Lemma rmatch_alt (ic : bool) (a b : regex) (k : Re.mstate -> option Re.mstate)
    (s : Re.mstate) :
  Re.rmatch ic (Alt a b) k s
  = match Re.rmatch ic a k s with
    | Some x => Some x
    | None => Re.rmatch ic b k s
    end.
Proof. reflexivity. Qed.

Ltac peel :=
  repeat
    match goal with
    | H : Re.rmatch _ (Seq (Group _ _) WordB) _ _ = Some _ |- _ => fail 1
    | H : Re.rmatch _ (Seq _ _) _ ?s = Some _, Hin : in_text _ ?s |- _ =>
        let s1 := fresh "s" in
        let H1 := fresh "H" in
        let Hin1 := fresh "Hin" in
        destruct (seq_step _ _ _ _ _ _ _ H Hin) as [s1 [H1 Hin1]];
        clear H Hin
    end.

Section SecondParty.
Import Patterns.
Variable U : ucd.

(** The group [j] of a match that ends in [(.+?)\b] is a non-empty piece
    of the text without a word boundary inside. *)
Lemma tail_group_one_run (text : str) (j : nat) (s res : Re.mstate) :
  Re.rmatch true (Seq (Group j (Re.lazy_plus Dot)) WordB) Some s = Some res ->
  in_text (map (classify U) text) s ->
  exists a b,
    Re.cap_lookup j (Re.m_caps res) = Some (a, b)
    /\ Re.slice text a b <> [] /\ no_boundary_inside U (Re.slice text a b).
Proof.
  intros H Hin. destruct (lazy_group_tail true j s res H)
    as [n [Hn1 [Hn2 [Hrun Hcaps]]]].
  exists (Re.m_pos s), (Re.m_pos s + n). rewrite Hcaps.
  cbn [Re.cap_lookup]. rewrite Nat.eqb_refl. split; [reflexivity|].
  unfold in_text in Hin. rewrite Hin, skipn_map in Hrun, Hn2.
  rewrite firstn_map in Hrun. rewrite length_map in Hn2.
  unfold Re.slice. replace (Re.m_pos s + n - Re.m_pos s) with n by lia.
  split.
  - intros E. apply (f_equal (@List.length N)) in E.
    rewrite length_firstn in E. simpl in E. lia.
  - now apply one_run_classified.
Qed.

(** X22.  In a match of a party pattern the group after "and", when it
    takes part, is not empty and has no word boundary inside: it is one
    word of the text (or one run of other characters), never a name of
    several words. *)
Theorem second_party_one_run (text : str) (pat : regex) (m : Re.match_obj)
    (g : str) :
  In pat PARTY_PATTERNS ->
  Re.search U true pat text = Some m ->
  last (Re.mo_groups m) None = Some g ->
  g <> [] /\ no_boundary_inside U g.
Proof.
  intros Hpat Hm Hg. unfold Re.search in Hm.
  destruct (Re.search_from true pat (map (classify U) text) None 0)
    as [[p res]|] eqn:Es; [|discriminate].
  simpl in Hm. inversion Hm; subst m. clear Hm.
  destruct (search_from_match (map (classify U) text) true pat _ None 0 p res
              eq_refl Es) as [prev' Hmatch].
  unfold Re.match_at in Hmatch.
  assert (Hin : in_text (map (classify U) text)
                  (Re.Build_mstate (skipn p (map (classify U) text)) prev' p []))
    by reflexivity.
  cbn [Re.mk_match Re.mo_groups] in Hg.
  unfold PARTY_PATTERNS in Hpat.
  destruct Hpat as [<- | [<- | [<- | []]]].
  - change (Re.ngroups _) with 2 in Hg. cbn [seq map last] in Hg.
    cbv [Re.seqs a_and_b] in Hmatch. peel.
    match goal with
    | H : Re.rmatch _ (Seq (Group _ _) WordB) _ ?s = Some _,
      Hi : in_text _ ?s |- _ =>
        destruct (tail_group_one_run text _ _ _ H Hi) as [a [b [Hc [H1 H2]]]]
    end.
    rewrite Hc in Hg. simpl in Hg. inversion Hg; subst g. now split.
  - change (Re.ngroups _) with 3 in Hg. cbn [seq map last] in Hg.
    rewrite rmatch_alt in Hmatch.
    match type of Hmatch with
    | match ?x with _ => _ end = _ => destruct x as [r1|] eqn:E1
    end.
    + inversion Hmatch; subst r1.
      match type of E1 with
      | Re.rmatch _ ?a _ _ = _ =>
          assert (HC : forall i sp caps,
                     In i (group_ids a) -> Re.cap_lookup 3 caps = None ->
                     Re.cap_lookup 3 ((i, sp) :: caps) = None)
      end.
      { intros i sp caps Hi Hc. vm_compute in Hi.
        destruct Hi as [<- | []]. exact Hc. }
      destruct (rmatch_through (map (classify U) text) true
                  (fun caps => Re.cap_lookup 3 caps = None) _ HC
                  Some _ _ E1 Hin eq_refl) as [s1 [Hs1 [_ Hc]]].
      inversion Hs1; subst s1. rewrite Hc in Hg. discriminate.
    + cbv [Re.seqs a_and_b] in Hmatch. peel.
      match goal with
      | H : Re.rmatch _ (Seq (Group _ _) WordB) _ ?s = Some _,
        Hi : in_text _ ?s |- _ =>
          destruct (tail_group_one_run text _ _ _ H Hi) as [a [b [Hc [H1 H2]]]]
      end.
      rewrite Hc in Hg. simpl in Hg. inversion Hg; subst g. now split.
  - change (Re.ngroups _) with 2 in Hg. cbn [seq map last] in Hg.
    cbv [Re.seqs a_and_b] in Hmatch. peel.
    match goal with
    | H : Re.rmatch _ (Seq (Group _ _) WordB) _ ?s = Some _,
      Hi : in_text _ ?s |- _ =>
        destruct (tail_group_one_run text _ _ _ H Hi) as [a [b [Hc [H1 H2]]]]
    end.
    rewrite Hc in Hg. simpl in Hg. inversion Hg; subst g. now split.
Qed.

End SecondParty.

Lemma second_party_one_run_witness :
  u "Beta" <> [] /\ no_boundary_inside ascii_ucd (u "Beta").
Proof.
  eapply second_party_one_run
    with (text := join (u " ") (split_ws scenario))
         (pat := hd Eps Patterns.PARTY_PATTERNS).
  - left. reflexivity.
  - vm_compute. reflexivity.
  - vm_compute. reflexivity.
Defined.
